(** * RAPID emergency-call API: the webhook handlers, the in-process
      broadcaster and the dashboard endpoint of [app.py]

    The development follows [app.py]:
    - [Json]: the dictionaries the handlers build and [json.dumps];
    - [Bus]: [MockBroadcaster] (one set of subscriber queues, the
      [publish] loop, the [subscribe] generator) and the [Broadcast] wrapper;
    - [App]: the service singletons and the three Twilio webhook handlers;
    - [Tasks]: the handlers of [/twilio/recording] as coroutines that the
      event loop interleaves at their [await]s;
    - [Ws]: the [/ws] endpoint;
    - [Boot]: the package check at import time, the declared response
      models and [/health];
    - [Prep]: [extract_emergency_details] of [data_preparation.py].

    Python strings are modelled as [string], each character standing for a
    code point below 256.  Float literals are carried as the text that
    [float.__repr__] gives them, which is what [json.dumps] prints. *)

From Stdlib Require Import Ascii String NArith Lia.
From stdpp Require Import gmap strings list fin_maps.

Set Warnings "-register-all,-clear-no-such-hyp".

Local Open Scope string_scope.

(** ** JSON values and Python dictionaries *)

Module Json.

(** A dictionary keeps its keys in insertion order, which is also the order
    in which [json.dumps] prints them. *)
Inductive json :=
| JNull
| JStr (s : string)
| JNum (repr : string)
| JArr (items : list json)
| JObj (items : list (string * json)).

Abbreviation dict := (list (string * json)).

(** [d[k] = v]: an existing key keeps its position and takes the new value,
    a new key goes last. *)
Fixpoint dict_set (k : string) (v : json) (d : dict) : dict :=
  match d with
  | [] => [(k, v)]
  | (k', v') :: rest =>
      if decide (k' = k) then (k', v) :: rest else (k', v') :: dict_set k v rest
  end.

(** A dictionary display [{k1: v1, **d, k2: v2}] stores its items from left
    to right. *)
Definition dict_literal (items : list (string * json)) : dict :=
  foldl (fun d kv => dict_set kv.1 kv.2 d) [] items.

Fixpoint dict_get (k : string) (d : dict) : option json :=
  match d with
  | [] => None
  | (k', v) :: rest => if decide (k' = k) then Some v else dict_get k rest
  end.

Definition dict_keys (d : dict) : list string := d.*1.

(** *** [json.dumps] with its default arguments *)

Definition hex_digit (n : N) : ascii :=
  ascii_of_N (if (n <? 10)%N then 48 + n else 87 + n).

(** [ESCAPE_ASCII]: the backslash, the double quote and every character
    outside [' '..'~'] are escaped. *)
Definition escape_char (c : ascii) : string :=
  let n := N_of_ascii c in
  if decide (n = 92%N) then "\\"
  else if decide (n = 34%N) then String "\" (String c EmptyString)
  else if decide (n = 8%N) then "\b"
  else if decide (n = 12%N) then "\f"
  else if decide (n = 10%N) then "\n"
  else if decide (n = 13%N) then "\r"
  else if decide (n = 9%N) then "\t"
  else if ((32 <=? n) && (n <=? 126))%N then String c EmptyString
  else "\u00" +:+ String (hex_digit (n / 16)) (String (hex_digit (n mod 16)) EmptyString).

Fixpoint escape_string (s : string) : string :=
  match s with
  | EmptyString => EmptyString
  | String c rest => escape_char c +:+ escape_string rest
  end.

Definition dquote : string := String (ascii_of_N 34) EmptyString.

Definition encode_basestring_ascii (s : string) : string :=
  dquote +:+ escape_string s +:+ dquote.

Definition join_comma (parts : list string) : string :=
  match parts with
  | [] => EmptyString
  | p :: ps => foldl (fun acc q => acc +:+ ", " +:+ q) p ps
  end.

Fixpoint json_dumps (j : json) : string :=
  match j with
  | JNull => "null"
  | JStr s => encode_basestring_ascii s
  | JNum repr => repr
  | JArr items => "[" +:+ join_comma (map json_dumps items) +:+ "]"
  | JObj items =>
      "{" +:+ join_comma
                (map (fun kv => encode_basestring_ascii kv.1 +:+ ": " +:+ json_dumps kv.2) items)
          +:+ "}"
  end.

End Json.

Import Json.

(** ** The in-process broadcaster *)

Module Bus.

Inductive exn := TypeError | KeyError.

Inductive result (A : Type) :=
| Ok (a : A)
| Raise (e : exn).
Arguments Ok {A} a.
Arguments Raise {A} e.

(** What the callers hand to [publish]: a dictionary or a string. *)
Inductive pymsg :=
| MsgDict (d : dict)
| MsgStr (s : string).

(** [asyncio.Queue] objects are compared by identity: a queue is a number,
    [queues] holds the pending items of every queue created so far and
    [subscribers] is the set [self.subscribers]. *)
Record MockBroadcaster := mkBus {
  subscribers : gset nat;
  queues : gmap nat (list string);
  next_queue : nat
}.

(** [MockBroadcaster.__init__] *)
Definition MockBroadcaster_init : MockBroadcaster := mkBus ∅ ∅ 0.

Definition queue_put (m : string) (q : nat) (h : gmap nat (list string))
  : gmap nat (list string) :=
  alter (fun items => (items ++ [m])%list) q h.

(** The text that [publish] puts on the queues: a dictionary is dumped, a
    string goes as it is. *)
Definition message_text (message : pymsg) : string :=
  match message with
  | MsgDict d => json_dumps (JObj d)
  | MsgStr s => s
  end.

(** [MockBroadcaster.publish]: every queue of the set is put the text; the
    channel is not consulted. *)
Definition publish (channel : string) (message : pymsg) (b : MockBroadcaster)
  : MockBroadcaster :=
  let message_str := message_text message in
  mkBus (subscribers b)
        (foldr (queue_put message_str) (queues b) (elements (subscribers b)))
        (next_queue b).
Global Arguments publish : simpl never.

(** *** The generator of [MockBroadcaster.subscribe]

    Calling [subscribe] runs nothing: the body starts at the first
    [__anext__].  It then creates the queue, adds it to the set and waits in
    [queue.get()]; [GenSuspended] is the generator inside the [try]. *)
Inductive async_gen :=
| GenCreated (channel : string)
| GenSuspended (channel : string) (queue : nat)
| GenClosed.

Definition subscribe (channel : string) : async_gen := GenCreated channel.

Inductive outcome :=
| Yielded (event : string)
| Waiting
| StopAsyncIteration.

(** [queue.get()] from inside the loop. *)
Definition queue_get (ch : string) (q : nat) (b : MockBroadcaster)
  : async_gen * MockBroadcaster * outcome :=
  match queues b !! q with
  | Some (m :: rest) =>
      (GenSuspended ch q,
       mkBus (subscribers b) (<[q := rest]> (queues b)) (next_queue b),
       Yielded m)
  | _ => (GenSuspended ch q, b, Waiting)
  end.

(** [__anext__] *)
Definition anext (g : async_gen) (b : MockBroadcaster)
  : async_gen * MockBroadcaster * outcome :=
  match g with
  | GenCreated ch =>
      let q := next_queue b in
      queue_get ch q
        (mkBus ({[q]} ∪ subscribers b) (<[q := []]> (queues b)) (S q))
  | GenSuspended ch q => queue_get ch q b
  | GenClosed => (GenClosed, b, StopAsyncIteration)
  end.

(** [set.remove] raises [KeyError] on an absent element. *)
Definition set_remove (q : nat) (s : gset nat) : result (gset nat) :=
  if decide (q ∈ s) then Ok (s ∖ {[q]}) else Raise KeyError.

(** The generator is closed or an exception is thrown into it (the consumer
    went away, the task was cancelled): the [finally] clause runs when the
    body had started. *)
Definition aclose (g : async_gen) (b : MockBroadcaster)
  : async_gen * MockBroadcaster * option exn :=
  match g with
  | GenSuspended _ q =>
      match set_remove q (subscribers b) with
      | Ok s => (GenClosed, mkBus s (queues b) (next_queue b), None)
      | Raise e => (GenClosed, b, Some e)
      end
  | _ => (GenClosed, b, None)
  end.

(** *** The [Broadcast] wrapper *)

Record Broadcast := mkBroadcast {
  url : string;
  broadcaster : MockBroadcaster
}.

Definition Broadcast_init (url : string) : Broadcast :=
  mkBroadcast url MockBroadcaster_init.

Definition Broadcast_publish (channel : string) (message : pymsg) (self : Broadcast)
  : result Broadcast :=
  Ok (mkBroadcast (url self) (publish channel message (broadcaster self))).

End Bus.

Import Bus.

(** ** The services and the webhook handlers *)

Module App.

Inductive MockASR := MockASR_init.
Inductive MockLLM := MockLLM_init.
Inductive MockEmotionAnalysis := MockEmotionAnalysis_init.

Definition MockASR_transcribe (self : MockASR) (audio_file : string) : string :=
  "This is a mock transcription for testing purposes.".

Definition MockLLM_generate (self : MockLLM) (transcript : string) : dict :=
  dict_literal
    [("emergency_type", JStr "Medical");
     ("priority", JStr "High");
     ("location", JStr "123 Main St");
     ("caller_name", JStr "John Doe");
     ("summary", JStr "Mock emergency call for testing purposes");
     ("recommended_actions", JArr [JStr "Dispatch ambulance"; JStr "Notify hospital"])].

Definition MockEmotionAnalysis_analyze (self : MockEmotionAnalysis) (transcript : string)
  : dict :=
  dict_literal
    [("emotions",
      JObj (dict_literal
              [("fear", JNum "0.7"); ("distress", JNum "0.8");
               ("anxiety", JNum "0.6"); ("calm", JNum "0.2")]));
     ("sentiment", JStr "negative");
     ("urgency", JStr "high")].

(** A request: the parsed form, or [None] when [request.form()] raises.
    The fields are text, as in the form-encoded webhooks; a multipart
    request with a file part is not covered. *)
Record Request := mkRequest { form : option (gmap string string) }.

(** FastAPI answers a returned dictionary with status 200 and the dictionary
    as JSON body. *)
Record Response := mkResponse { status_code : nat; body : json }.

Definition is_2xx (code : nat) : bool := ((200 <=? code) && (code <? 300))%nat.

(** [try: form_data = await request.form() / except: form_data = {}] *)
Definition request_form (request : Request) : gmap string string :=
  match form request with
  | Some form_data => form_data
  | None => ∅
  end.

(** [form_data.get(key, default)] *)
Definition form_get (form_data : gmap string string) (key default : string) : string :=
  match form_data !! key with
  | Some v => v
  | None => default
  end.

(** The [except Exception] around every [broadcast.publish]: the failure is
    logged and the handler goes on. *)
Definition publish_or_warn (channel : string) (message : pymsg) (broadcast : Broadcast)
  : Broadcast :=
  match Broadcast_publish channel message broadcast with
  | Ok broadcast' => broadcast'
  | Raise _ => broadcast
  end.

Section Handlers.

(** The optional packages that could not be imported at start-up. *)
Variable missing_optional : list string.

(** The global [broadcast] is an object of whichever class [Broadcast] is,
    the one of this file or the one of the [broadcaster] package; the
    handlers use its [publish] method only. *)
Context {B : Type}.
Variable broadcast_publish : string -> pymsg -> B -> result B.

(** [try: await broadcast.publish(channel=..., message=...)] with its
    [except Exception], which logs a warning and goes on. *)
Definition try_publish (channel : string) (message : pymsg) (broadcast : B) : B :=
  match broadcast_publish channel message broadcast with
  | Ok broadcast' => broadcast'
  | Raise _ => broadcast
  end.

Definition asr_service : option MockASR :=
  if decide ("openai-whisper" ∈ missing_optional) then Some MockASR_init else None.

Definition llm_service : option MockLLM :=
  if decide ("transformers" ∈ missing_optional ∨ "torch" ∈ missing_optional)
  then Some MockLLM_init else None.

Definition emotion_service : option MockEmotionAnalysis :=
  if decide ("hume" ∈ missing_optional) then Some MockEmotionAnalysis_init else None.

(** *** [/twilio/call] *)

Definition call_started_message (call_sid : string) : dict :=
  dict_literal
    [("event", JStr "call_started");
     ("call_sid", JStr call_sid);
     ("status", JStr "in-progress")].

Definition handle_call_on (request : Request) (broadcast : B)
  : Response * B :=
  let form_data := request_form request in
  let call_sid := form_get form_data "CallSid" "test-call-sid" in
  let broadcast :=
    try_publish "calls"
      (MsgStr (json_dumps (JObj (call_started_message call_sid)))) broadcast in
  (mkResponse 200
     (JObj (dict_literal
              [("call_sid", JStr call_sid);
               ("status", JStr "in-progress");
               ("message", JStr "Call received and being processed")])),
   broadcast).

(** *** [/twilio/recording] *)

Definition recording_transcript (recording_url : string) : string :=
  match asr_service with
  | Some service => MockASR_transcribe service recording_url
  | None => "This is a mock transcript for testing purposes."
  end.

Definition service_emotions (transcript : string) : dict :=
  match emotion_service with
  | Some service => MockEmotionAnalysis_analyze service transcript
  | None => dict_literal [("fear", JNum "0.7"); ("distress", JNum "0.8")]
  end.

Definition new_transcript_message (call_sid transcript : string) (analysis : dict) : dict :=
  dict_literal
    [("event", JStr "new_transcript");
     ("call_sid", JStr call_sid);
     ("transcript", JStr transcript);
     ("analysis", JObj analysis)].

Definition recording_response (recording_sid call_sid transcript : string)
    (analysis : dict) : dict :=
  dict_literal
    [("recording_sid", JStr recording_sid);
     ("call_sid", JStr call_sid);
     ("status", JStr "processed");
     ("transcript", JStr transcript);
     ("analysis", JObj analysis)].

Definition handle_recording_on (request : Request) (broadcast : B)
  : Response * B :=
  let form_data := request_form request in
  let recording_sid := form_get form_data "RecordingSid" "test-recording-sid" in
  let call_sid := form_get form_data "CallSid" "test-call-sid" in
  let recording_url :=
    form_get form_data "RecordingUrl" "https://example.com/recording.mp3" in
  let transcript := recording_transcript recording_url in
  let emotions := service_emotions transcript in
  let analysis :=
    dict_literal [("emotions", JObj emotions); ("call_sid", JStr call_sid)] in
  let broadcast :=
    try_publish "transcripts"
      (MsgStr (json_dumps (JObj (new_transcript_message call_sid transcript analysis))))
      broadcast in
  (mkResponse 200 (JObj (recording_response recording_sid call_sid transcript analysis)),
   broadcast).

(** *** [/twilio/response] *)

Definition triage (transcript : string) : dict :=
  match llm_service with
  | Some service => MockLLM_generate service transcript
  | None =>
      dict_literal
        [("emergency_type", JStr "Medical");
         ("priority", JStr "High");
         ("location", JStr "123 Main St");
         ("caller_name", JStr "John Doe");
         ("summary", JStr "Mock emergency call for testing purposes");
         ("recommended_actions",
          JArr [JStr "Dispatch ambulance"; JStr "Notify hospital"])]
  end.

Definition new_response_message (call_sid : string) (triage_result emotions : dict) : dict :=
  dict_literal
    ([("event", JStr "new_response"); ("call_sid", JStr call_sid)]
       ++ triage_result ++ [("emotions", JObj emotions)])%list.

Definition triage_response (call_sid : string) (triage_result emotions : dict) : dict :=
  dict_literal
    ([("call_sid", JStr call_sid)] ++ triage_result ++ [("emotions", JObj emotions)])%list.

Definition handle_response_on (request : Request) (broadcast : B)
  : Response * B :=
  let form_data := request_form request in
  let call_sid := form_get form_data "CallSid" "test-call-sid" in
  let transcript := form_get form_data "Transcript" "Mock transcript" in
  let triage_result := triage transcript in
  let emotions := service_emotions transcript in
  let response := triage_response call_sid triage_result emotions in
  let broadcast :=
    try_publish "responses"
      (MsgStr (json_dumps (JObj (new_response_message call_sid triage_result emotions))))
      broadcast in
  (mkResponse 200 (JObj response), broadcast).

End Handlers.

(** The handlers of the application whose [broadcast] is an object of the
    class [Broadcast] of this file. *)
Definition handle_call : Request -> Broadcast -> Response * Broadcast :=
  handle_call_on Broadcast_publish.

Definition handle_recording (missing_optional : list string)
  : Request -> Broadcast -> Response * Broadcast :=
  handle_recording_on missing_optional Broadcast_publish.

Definition handle_response (missing_optional : list string)
  : Request -> Broadcast -> Response * Broadcast :=
  handle_response_on missing_optional Broadcast_publish.

(** A broadcaster that only keeps a record of the calls of its [publish]:
    the channel and the text of each. *)
Definition record_publish (channel : string) (message : pymsg)
    (calls : list (string * string)) : result (list (string * string)) :=
  Ok (calls ++ [(channel, message_text message)])%list.

(** A broadcaster whose [publish] always raises. *)
Definition failing_publish (channel : string) (message : pymsg) (broadcast : unit)
  : result unit :=
  Raise TypeError.

(** [broadcast = Broadcast("memory://")] *)
Definition broadcast0 : Broadcast := Broadcast_init "memory://".

(** The handler's new broadcaster is the old one after one [publish] of the
    dumped dictionary [event] on [channel]. *)
Definition publishes (before after : Broadcast) (channel : string) (event : dict) : Prop :=
  after =
  mkBroadcast (url before)
    (publish channel (MsgStr (json_dumps (JObj event))) (broadcaster before)).

End App.

Import App.

(** ** The running system: webhooks, publishers and subscription streams *)

Module Sys.

Inductive webhook := Call | Recording | Respond.

Definition handler (missing_optional : list string) (w : webhook)
  : Request -> Broadcast -> Response * Broadcast :=
  match w with
  | Call => handle_call
  | Recording => handle_recording missing_optional
  | Respond => handle_response missing_optional
  end.

(** The same handlers with whichever broadcaster the application uses. *)
Definition handler_on {B : Type} (broadcast_publish : string -> pymsg -> B -> result B)
    (missing_optional : list string) (w : webhook)
  : Request -> B -> Response * B :=
  match w with
  | Call => handle_call_on broadcast_publish
  | Recording => handle_recording_on missing_optional broadcast_publish
  | Respond => handle_response_on missing_optional broadcast_publish
  end.

Definition webhook_channel (w : webhook) : string :=
  match w with
  | Call => "calls"
  | Recording => "transcripts"
  | Respond => "responses"
  end.

(** The dictionary that the handler of [w] dumps and publishes for [request]. *)
Definition webhook_event (missing_optional : list string) (w : webhook)
    (request : Request) : dict :=
  let form_data := request_form request in
  let call_sid := form_get form_data "CallSid" "test-call-sid" in
  match w with
  | Call => call_started_message call_sid
  | Recording =>
      let transcript :=
        recording_transcript missing_optional
          (form_get form_data "RecordingUrl" "https://example.com/recording.mp3") in
      new_transcript_message call_sid transcript
        (dict_literal
           [("emotions", JObj (service_emotions missing_optional transcript));
            ("call_sid", JStr call_sid)])
  | Respond =>
      let transcript := form_get form_data "Transcript" "Mock transcript" in
      new_response_message call_sid (triage missing_optional transcript)
        (service_emotions missing_optional transcript)
  end.

(** The broadcaster and the subscription generators that consumers hold,
    each under a name of the consumer's choice. *)
Record sys := mkSys { bcast : Broadcast; gens : gmap nat async_gen }.

Definition sys0 : sys := mkSys broadcast0 ∅.

Definition set_broadcaster (b : MockBroadcaster) (self : Broadcast) : Broadcast :=
  mkBroadcast (url self) b.

Inductive op :=
| OpPublish (channel : string) (message : pymsg)
| OpWebhook (w : webhook) (request : Request)
| OpSubscribe (g : nat) (channel : string)
| OpNext (g : nat)
| OpClose (g : nat).

Inductive output :=
| Silent
| Responded (response : Response)
| Next (g : nat) (o : outcome)
| Closed (g : nat) (error : option exn).

Definition is_suspended (g : option async_gen) : bool :=
  match g with
  | Some (GenSuspended _ _) => true
  | _ => false
  end.

Section Run.

Variable missing_optional : list string.

(** One event-loop turn.  A name that is taken cannot be bound again, and a
    name that is not bound has no generator to resume or close. *)
Definition step (o : op) (s : sys) : sys * output :=
  match o with
  | OpPublish channel message =>
      (mkSys (publish_or_warn channel message (bcast s)) (gens s), Silent)
  | OpWebhook w request =>
      let r := handler missing_optional w request (bcast s) in
      (mkSys r.2 (gens s), Responded r.1)
  | OpSubscribe g channel =>
      match gens s !! g with
      | None => (mkSys (bcast s) (<[g := subscribe channel]> (gens s)), Silent)
      | Some _ => (s, Silent)
      end
  | OpNext g =>
      match gens s !! g with
      | Some gen =>
          let r := anext gen (broadcaster (bcast s)) in
          (mkSys (set_broadcaster r.1.2 (bcast s)) (<[g := r.1.1]> (gens s)),
           Next g r.2)
      | None => (s, Silent)
      end
  | OpClose g =>
      match gens s !! g with
      | Some gen =>
          let r := aclose gen (broadcaster (bcast s)) in
          (mkSys (set_broadcaster r.1.2 (bcast s)) (<[g := r.1.1]> (gens s)),
           Closed g r.2)
      | None => (s, Silent)
      end
  end.

Fixpoint run (t : list op) (s : sys) : sys :=
  match t with
  | [] => s
  | o :: t' => run t' (step o s).1
  end.

Fixpoint outputs (t : list op) (s : sys) : list output :=
  match t with
  | [] => []
  | o :: t' => (step o s).2 :: outputs t' (step o s).1
  end.

(** The text an operation puts on the bus, if it publishes. *)
Definition published_text (o : op) : list string :=
  match o with
  | OpPublish _ message => [message_text message]
  | OpWebhook w request =>
      [json_dumps (JObj (webhook_event missing_optional w request))]
  | _ => []
  end.

(** The dictionaries the webhooks of a trace publish, in order. *)
Definition published_events (t : list op) : list dict :=
  omap (fun o => match o with
                 | OpWebhook w request => Some (webhook_event missing_optional w request)
                 | _ => None
                 end) t.

Definition webhook_or_stream (o : op) : bool :=
  match o with
  | OpPublish _ _ => false
  | _ => true
  end.

(** What the consumer of generator [g] is handed over a trace. *)
Definition yielded (g : nat) (out : output) : list string :=
  match out with
  | Next g' (Yielded m) => if decide (g' = g) then [m] else []
  | _ => []
  end.

Definition yielded_none (out : output) : Prop := ∀ g, yielded g out = [].

Fixpoint received (g : nat) (t : list op) (s : sys) : list string :=
  match t with
  | [] => []
  | o :: t' => (yielded g (step o s).2 ++ received g t' (step o s).1)%list
  end.

(** What is published while [g] is inside its [try]. *)
Fixpoint feed (g : nat) (t : list op) (s : sys) : list string :=
  match t with
  | [] => []
  | o :: t' =>
      ((if is_suspended (gens s !! g) then published_text o else [])
         ++ feed g t' (step o s).1)%list
  end.

(** The items waiting in the queue of [g]. *)
Definition pending (g : nat) (s : sys) : list string :=
  match gens s !! g with
  | Some (GenSuspended _ q) => default [] (queues (broadcaster (bcast s)) !! q)
  | _ => []
  end.

Definition raised (out : output) : bool :=
  match out with
  | Closed _ (Some _) => true
  | _ => false
  end.

End Run.

(** A generator inside its [try] owns a queue that was created, is in the
    set and is owned by no other generator. *)
Definition wf (s : sys) : Prop :=
  (∀ g ch q, gens s !! g = Some (GenSuspended ch q) →
     q ∈ subscribers (broadcaster (bcast s)) ∧
     is_Some (queues (broadcaster (bcast s)) !! q) ∧
     q < next_queue (broadcaster (bcast s))) ∧
  (∀ g1 g2 ch1 ch2 q,
     gens s !! g1 = Some (GenSuspended ch1 q) →
     gens s !! g2 = Some (GenSuspended ch2 q) → g1 = g2).

(** The queue of a generator that has left its [try]. *)
Definition retired (q : nat) (s : sys) : Prop :=
(q ∉ subscribers (broadcaster (bcast s))) ∧
  q < next_queue (broadcaster (bcast s)) ∧
  ∀ g ch, gens s !! g ≠ Some (GenSuspended ch q).

(** The text a published dictionary travels as. *)
Definition event_text (event : dict) : string := json_dumps (JObj event).

(** The kinds of event the handlers publish. *)
Definition webhook_kind (w : webhook) : string :=
  match w with
  | Call => "call_started"
  | Recording => "new_transcript"
  | Respond => "new_response"
  end.

Definition event_kinds : list string :=
  ["call_started"; "new_transcript"; "new_response"].

(** The kinds of event the specification lists for a [PipelineEvent]. *)
Definition spec_event_kinds : list string :=
  ["call_started"; "transcript_ready"; "triage_ready"; "emotion_ready";
   "pipeline_failed"].

(** The events of one call: those whose [call_sid] field is the call's. *)
Definition of_call (call_sid : string) (event : dict) : bool :=
  match dict_get "call_sid" event with
  | Some (JStr s) => bool_decide (s = call_sid)
  | _ => false
  end.

End Sys.

Import Sys.

(** ** [handle_recording] as a coroutine

    The handler has two [await]s, [request.form()] and
    [broadcast.publish(...)]; the event loop may run other handlers at
    either.  A task is the handler suspended at one of them, with the locals
    it has bound so far. *)

Module Tasks.

Inductive recording_task :=
| AwaitingForm (request : Request)
| AwaitingPublish (recording_sid call_sid transcript : string) (analysis : dict)
| Returned (response : Response).

Inductive turn := TurnA | TurnB.

Record pool := mkPool {
  run_a : recording_task;
  run_b : recording_task;
  shared : Broadcast
}.

Section Tasks.

Variable missing_optional : list string.

(** The task runs from its [await] to the next one, or to its [return]. *)
Definition resume (t : recording_task) (broadcast : Broadcast)
  : recording_task * Broadcast :=
  match t with
  | AwaitingForm request =>
      let form_data := request_form request in
      let recording_sid := form_get form_data "RecordingSid" "test-recording-sid" in
      let call_sid := form_get form_data "CallSid" "test-call-sid" in
      let recording_url :=
        form_get form_data "RecordingUrl" "https://example.com/recording.mp3" in
      let transcript := recording_transcript missing_optional recording_url in
      let emotions := service_emotions missing_optional transcript in
      let analysis :=
        dict_literal [("emotions", JObj emotions); ("call_sid", JStr call_sid)] in
      (AwaitingPublish recording_sid call_sid transcript analysis, broadcast)
  | AwaitingPublish recording_sid call_sid transcript analysis =>
      let broadcast :=
        publish_or_warn "transcripts"
          (MsgStr (json_dumps
                     (JObj (new_transcript_message call_sid transcript analysis))))
          broadcast in
      (Returned
         (mkResponse 200
            (JObj (recording_response recording_sid call_sid transcript analysis))),
       broadcast)
  | Returned response => (Returned response, broadcast)
  end.

(** Two requests to [/twilio/recording] whose handlers share the global
    [broadcast]; the schedule says whose turn it is. *)
Definition launch (request_a request_b : Request) (broadcast : Broadcast) : pool :=
  mkPool (AwaitingForm request_a) (AwaitingForm request_b) broadcast.

Definition schedule_step (p : pool) (who : turn) : pool :=
  match who with
  | TurnA =>
      let r := resume (run_a p) (shared p) in mkPool r.1 (run_b p) r.2
  | TurnB =>
      let r := resume (run_b p) (shared p) in mkPool (run_a p) r.1 r.2
  end.

Definition run_schedule (schedule : list turn) (p : pool) : pool :=
  foldl schedule_step p schedule.

End Tasks.

Fixpoint turns_of_a (schedule : list turn) : nat :=
  match schedule with
  | [] => 0
  | TurnA :: rest => S (turns_of_a rest)
  | TurnB :: rest => turns_of_a rest
  end.

Fixpoint turns_of_b (schedule : list turn) : nat :=
  match schedule with
  | [] => 0
  | TurnA :: rest => turns_of_b rest
  | TurnB :: rest => S (turns_of_b rest)
  end.

(** How many of its two [await]s a task has behind it. *)
Definition stage (t : recording_task) : nat :=
  match t with
  | AwaitingForm _ => 0
  | AwaitingPublish _ _ _ _ => 1
  | Returned _ => 2
  end.

Definition in_flight (t : recording_task) : bool :=
  match t with
  | Returned _ => false
  | _ => true
  end.

Definition response_of (t : recording_task) : option Response :=
  match t with
  | Returned response => Some response
  | _ => None
  end.

Section Tracking.

Variable missing_optional : list string.

(** A task is at one of the three points of the handler run on its own
    request. *)
Definition on_track (request : Request) (t : recording_task) : Prop :=
  t = AwaitingForm request ∨
  t = (resume missing_optional (AwaitingForm request) broadcast0).1 ∨
  t = Returned (handle_recording missing_optional request broadcast0).1.

(** The shared broadcaster has seen the events of the tasks that returned,
    and only those. *)
Definition settled (request_a request_b : Request) (b : Broadcast) (p : pool) : Prop :=
  match in_flight (run_a p), in_flight (run_b p) with
  | true, true => shared p = b
  | false, true => shared p = (handle_recording missing_optional request_a b).2
  | true, false => shared p = (handle_recording missing_optional request_b b).2
  | false, false =>
      shared p =
      (handle_recording missing_optional request_b
         (handle_recording missing_optional request_a b).2).2 ∨
      shared p =
      (handle_recording missing_optional request_a
         (handle_recording missing_optional request_b b).2).2
  end.

Definition pool_ok (request_a request_b : Request) (b : Broadcast) (p : pool) : Prop :=
  on_track request_a (run_a p) ∧ on_track request_b (run_b p) ∧
  settled request_a request_b b p.

End Tracking.

End Tasks.

Import Tasks.

(** ** The dashboard endpoint [/ws] *)

Module Ws.

(** What [broadcast.subscribe(channel=...)] evaluates to. *)
Inductive pyobj :=
| CoroutineObj (channel : string).

(** [Broadcast.subscribe] is declared [async def] and has no [yield]: a call
    makes the coroutine object and runs nothing of its body. *)
Definition Broadcast_subscribe (channel : string) (self : Broadcast) : pyobj :=
  CoroutineObj channel.

(** [async with obj as subscriber] asks the type of [obj] for [__aenter__]
    and [__aexit__]; a coroutine object has neither, and the statement
    raises [TypeError] ([AttributeError] before Python 3.11, which the same
    [except Exception] catches). *)
Definition async_with_enter (obj : pyobj) : result async_gen :=
  match obj with
  | CoroutineObj _ => Raise TypeError
  end.

Record WebSocket := mkWebSocket { accepted : bool; sent : list string }.

Definition accept (websocket : WebSocket) : WebSocket :=
  mkWebSocket true (sent websocket).

Definition send_text (event : string) (websocket : WebSocket) : WebSocket :=
  mkWebSocket (accepted websocket) (sent websocket ++ [event])%list.

(** The endpoint inside the [async for] of one block, with the channels of
    the blocks still to come, or returned, with the exception its [except]
    clause logged. *)
Inductive ws_state :=
| WsForwarding (subscriber : async_gen) (later : list string)
| WsReturned (warning : option exn).

(** The three [async with] blocks stand one after the other inside one
    [try]: a block is entered when the one before it is left. *)
Definition enter_blocks (channels : list string) (broadcast : Broadcast) : ws_state :=
  match channels with
  | [] => WsReturned None
  | channel :: later =>
      match async_with_enter (Broadcast_subscribe channel broadcast) with
      | Ok subscriber => WsForwarding subscriber later
      | Raise e => WsReturned (Some e)
      end
  end.

Definition websocket_endpoint (websocket : WebSocket) (broadcast : Broadcast)
  : WebSocket * ws_state :=
  (accept websocket, enter_blocks ["calls"; "transcripts"; "responses"] broadcast).

(** One turn of the forwarding loop. *)
Definition ws_resume (st : ws_state) (websocket : WebSocket) (broadcast : Broadcast)
  : ws_state * WebSocket * Broadcast :=
  match st with
  | WsForwarding subscriber later =>
      let r := anext subscriber (broadcaster broadcast) in
      let broadcast := set_broadcaster r.1.2 broadcast in
      match r.2 with
      | Yielded event => (WsForwarding r.1.1 later, send_text event websocket, broadcast)
      | Waiting => (WsForwarding r.1.1 later, websocket, broadcast)
      | StopAsyncIteration => (enter_blocks later broadcast, websocket, broadcast)
      end
  | WsReturned warning => (WsReturned warning, websocket, broadcast)
  end.

(** The endpoint next to the webhooks: after every webhook the endpoint gets
    a turn. *)
Fixpoint serve (missing_optional : list string) (hooks : list (webhook * Request))
    (st : ws_state) (websocket : WebSocket) (broadcast : Broadcast)
  : ws_state * WebSocket * Broadcast :=
  match hooks with
  | [] => (st, websocket, broadcast)
  | (w, request) :: rest =>
      let broadcast := (handler missing_optional w request broadcast).2 in
      let r := ws_resume st websocket broadcast in
      serve missing_optional rest r.1.1 r.1.2 r.2
  end.

End Ws.

Import Ws.

(** ** Module start-up, the declared response models and [/health] *)

Module Boot.

Definition required_packages : list string := ["fastapi"; "uvicorn"].

Definition optional_packages : list string :=
  ["python-dotenv"; "twilio"; "broadcaster"; "pydantic"; "torch";
   "transformers"; "peft"; "openai-whisper"; "hume"; "retell"].

(** [for package in packages: try: __import__(package) / except ImportError:
    missing.append(package)] *)
Definition scan_missing (importable : string -> bool) (packages : list string)
  : list string :=
  foldl (fun missing package =>
           if importable package then missing else (missing ++ [package])%list)
    [] packages.

(** The module body up to the imports of FastAPI: [sys.exit(1)] when a
    required package is missing, otherwise the module goes on with
    [missing_optional]. *)
Inductive boot :=
| Exited (code : nat)
| Loaded (missing_optional : list string).

Definition load_module (importable : string -> bool) : boot :=
  let missing_required := scan_missing importable required_packages in
  let missing_optional := scan_missing importable optional_packages in
  match missing_required with
  | [] => Loaded missing_optional
  | _ :: _ => Exited 1
  end.

(** The truth value of what [os.getenv(key)] returns: [None] and the empty
    string are false. *)
Definition getenv_truthy (env : gmap string string) (key : string) : bool :=
  match env !! key with
  | Some value => if decide (value = "") then false else true
  | None => false
  end.

(** [os.getenv(key, default)] *)
Definition getenv_default (env : gmap string string) (key default : string) : string :=
  match env !! key with
  | Some value => value
  | None => default
  end.

(** [GET /health] *)
Definition health_check (missing_optional : list string) (env : gmap string string)
  : Response :=
  mkResponse 200
    (JObj (dict_literal
      [("status", JStr "ok");
       ("services",
        JObj (dict_literal
          [("asr", JStr (if decide ("openai-whisper" ∈ missing_optional)
                         then "mock" else "ready"));
           ("llm", JStr (if decide ("transformers" ∈ missing_optional ∨
                                    "torch" ∈ missing_optional)
                         then "mock" else "ready"));
           ("emotion", JStr (if decide ("hume" ∈ missing_optional)
                             then "mock" else "ready"));
           ("api", JStr "ready")]));
       ("environment",
        JObj (dict_literal
          [("twilio",
            JStr (if getenv_truthy env "TWILIO_ACCOUNT_SID" &&
                     getenv_truthy env "TWILIO_AUTH_TOKEN"
                  then "configured" else "missing"));
           ("model_path", JStr (getenv_default env "MODEL_PATH" "not set"))]));
       ("missing_packages", JArr (map JStr missing_optional))])).

(** Reading a field of a field of the body. *)
Definition body_field (group name : string) (response : Response) : option json :=
  match body response with
  | JObj fields =>
      match dict_get group fields with
      | Some (JObj inner) => dict_get name inner
      | _ => None
      end
  | _ => None
  end.

(** *** The response models declared under [# API models] *)

Inductive field_type :=
| TStr
| TDict
| TListStr
| TOptional (t : field_type).

Definition is_str (j : json) : bool :=
  match j with
  | JStr _ => true
  | _ => false
  end.

Fixpoint has_type (t : field_type) (j : json) : bool :=
  match t with
  | TStr => is_str j
  | TDict => match j with JObj _ => true | _ => false end
  | TListStr => match j with JArr items => forallb is_str items | _ => false end
  | TOptional t' => match j with JNull => true | _ => has_type t' j end
  end.

Definition CallResponse : list (string * field_type) :=
  [("call_sid", TStr); ("status", TStr); ("message", TStr)].

Definition RecordingResponse : list (string * field_type) :=
  [("recording_sid", TStr); ("call_sid", TStr); ("status", TStr);
   ("transcript", TStr); ("analysis", TDict)].

Definition TriageResponse : list (string * field_type) :=
  [("call_sid", TStr); ("emergency_type", TStr); ("priority", TStr);
   ("location", TOptional TStr); ("caller_name", TOptional TStr);
   ("summary", TStr); ("recommended_actions", TListStr);
   ("emotions", TOptional TDict)].

Definition response_model (w : webhook) : list (string * field_type) :=
  match w with
  | Call => CallResponse
  | Recording => RecordingResponse
  | Respond => TriageResponse
  end.

(** The dictionary has the fields of the model, in the order of their
    declaration and each with a value of the declared type, and no other. *)
Fixpoint conforms (model : list (string * field_type)) (d : dict) : bool :=
  match model, d with
  | [], [] => true
  | (name, t) :: model', (k, v) :: d' =>
      bool_decide (name = k) && has_type t v && conforms model' d'
  | _, _ => false
  end.

End Boot.

Import Boot.

(** ** Observations on texts and traces *)

Module Observe.

(** The characters from the space to the tilde. *)
Definition printable_char (c : ascii) : bool :=
  let n := N_of_ascii c in ((32 <=? n) && (n <=? 126))%N.

Fixpoint printable (s : string) : bool :=
  match s with
  | EmptyString => true
  | String c rest => printable_char c && printable rest
  end.

(** The number texts of a value are printable. *)
Fixpoint nums_printable (j : json) : bool :=
  match j with
  | JNum repr => printable repr
  | JArr items => forallb nums_printable items
  | JObj items => forallb (fun kv => nums_printable kv.2) items
  | _ => true
  end.

(** The operations that only publish. *)
Definition is_publisher (o : op) : bool :=
  match o with
  | OpPublish _ _ | OpWebhook _ _ => true
  | _ => false
  end.

(** The operations in which the consumer of [g] neither asks for the next
    event nor closes its generator. *)
Definition leaves_alone (g : nat) (o : op) : bool :=
  match o with
  | OpNext g' | OpClose g' => negb (bool_decide (g' = g))
  | _ => true
  end.

(** The operations of the consumer that holds the name [g]. *)
Definition consumer_op (g : nat) (o : op) : bool :=
  match o with
  | OpSubscribe g' _ | OpNext g' | OpClose g' => bool_decide (g' = g)
  | _ => false
  end.

(** Every queue of the subscriber set belongs to a generator inside its
    [try]. *)
Definition tracked (s : sys) : Prop :=
  ∀ q, q ∈ subscribers (broadcaster (bcast s)) →
       ∃ g ch, gens s !! g = Some (GenSuspended ch q).

End Observe.

Import Observe.

(** ** [data_preparation.py]: the rule-based extraction of emergency details *)

Module Prep.

(** [str.lower] on one character: the capital letters of ASCII and of
    Latin-1 move up by 32, every other character below 256 stays. *)
Definition lower_char (c : ascii) : ascii :=
  let n := N_of_ascii c in
  if ((65 <=? n) && (n <=? 90) || (192 <=? n) && (n <=? 214)
      || (216 <=? n) && (n <=? 222))%N
  then ascii_of_N (n + 32) else c.

Fixpoint lower (s : string) : string :=
  match s with
  | EmptyString => EmptyString
  | String c rest => String (lower_char c) (lower rest)
  end.

Fixpoint starts_with (p s : string) : bool :=
  match p, s with
  | EmptyString, _ => true
  | String _ _, EmptyString => false
  | String a p', String b s' => bool_decide (a = b) && starts_with p' s'
  end.

(** [sub in s] *)
Fixpoint contains (sub s : string) : bool :=
  match s with
  | EmptyString => starts_with sub EmptyString
  | String _ rest => starts_with sub s || contains sub rest
  end.

(** [str.isspace] on one character below 256. *)
Definition is_space (c : ascii) : bool :=
  let n := N_of_ascii c in
  ((9 <=? n) && (n <=? 13) || (28 <=? n) && (n <=? 32)
   || (n =? 133) || (n =? 160))%N.

Definition is_empty (s : string) : bool :=
  match s with
  | EmptyString => true
  | String _ _ => false
  end.

Fixpoint lstrip (s : string) : string :=
  match s with
  | EmptyString => EmptyString
  | String c rest => if is_space c then lstrip rest else s
  end.

Fixpoint rstrip (s : string) : string :=
  match s with
  | EmptyString => EmptyString
  | String c rest =>
      let rest' := rstrip rest in
      if is_space c && is_empty rest' then EmptyString else String c rest'
  end.

(** [str.strip()] *)
Definition strip (s : string) : string := rstrip (lstrip s).

(** [len(s.split())]: the number of maximal runs of characters that are
    not white space; [in_word] says that the character before was one. *)
Fixpoint count_words (in_word : bool) (s : string) : nat :=
  match s with
  | EmptyString => 0
  | String c rest =>
      if is_space c then count_words false rest
      else if in_word then count_words true rest
      else S (count_words true rest)
  end.

Definition word_count (s : string) : nat := count_words false s.

(** [s.split(sep)] for a separator that is not empty: the occurrences of
    [sep] are found from the left and do not overlap.  [skip] counts the
    characters of a found occurrence still to pass over, [current] is the
    part being read. *)
Fixpoint split_go (sep : string) (skip : nat) (current : string) (s : string)
  : list string :=
  match s with
  | EmptyString => [current]
  | String c rest =>
      match skip with
      | S skip' => split_go sep skip' current rest
      | O =>
          if starts_with sep s
          then current :: split_go sep (String.length sep - 1) EmptyString rest
          else split_go sep 0 (current +:+ String c EmptyString) rest
      end
  end.

Definition split_sep (sep s : string) : list string := split_go sep 0 EmptyString s.

Definition categories : list (string * list string) :=
  [("medical", ["ambulance"; "heart"; "breathing"; "blood"; "injury"; "hurt"; "pain";
                "sick"]);
   ("fire", ["fire"; "smoke"; "burning"; "flames"; "heat"]);
   ("police", ["police"; "crime"; "theft"; "robbery"; "attack"; "weapon"; "gun";
               "knife"]);
   ("traffic", ["accident"; "crash"; "collision"; "car"; "vehicle"; "road";
                "highway"])].

Definition severity_keywords : list (string * list string) :=
  [("high", ["emergency"; "critical"; "severe"; "dying"; "death"; "urgent";
             "immediately"]);
   ("medium", ["serious"; "bad"; "significant"; "concerning"]);
   ("low", ["minor"; "small"; "little"; "not serious"])].

Definition location_markers : list string := ["at"; "in"; "near"; "on"; "by"].

Definition actions : list (string * list (string * string)) :=
  [("medical",
    [("high", "Dispatch ambulance immediately with paramedics");
     ("medium", "Dispatch ambulance with standard crew");
     ("low", "Advise caller on first aid and dispatch medical assistance")]);
   ("fire",
    [("high", "Dispatch fire brigade with full equipment immediately");
     ("medium", "Dispatch fire brigade with standard equipment");
     ("low", "Send fire assessment team")]);
   ("police",
    [("high", "Dispatch armed police units immediately");
     ("medium", "Dispatch police patrol");
     ("low", "File police report and schedule follow-up")]);
   ("traffic",
    [("high", "Dispatch ambulance, police, and traffic management");
     ("medium", "Dispatch police and traffic management");
     ("low", "Dispatch traffic management team")]);
   ("unknown",
    [("high", "Dispatch emergency assessment team immediately");
     ("medium", "Dispatch assessment team");
     ("low", "Schedule follow-up call")])].

(** [d.get(key, default)] on a dictionary written as a list of items. *)
Fixpoint get_or {V} (key : string) (d : list (string * V)) (default : V) : V :=
  match d with
  | [] => default
  | (k, v) :: rest => if decide (k = key) then v else get_or key rest default
  end.

(** [sum(1 for keyword in keywords if keyword.lower() in transcript.lower())] *)
Definition count_matches (keywords : list string) (transcript : string) : nat :=
  length (List.filter (fun keyword => contains (lower keyword) (lower transcript))
            keywords).

(** The loop over [categories.items()]: a category takes over only with
    strictly more matches than the best so far. *)
Definition determine_category (transcript : string) : string :=
  (foldl (fun best item =>
            let matches := count_matches item.2 transcript in
            if (best.2 <? matches)%nat then (item.1, matches) else best)
     ("unknown", 0) categories).1.

(** The loop over [severity_keywords.items()], left at the first level one
    of whose keywords occurs; [severity] is the value set before the loop. *)
Fixpoint first_level (levels : list (string * list string)) (transcript : string)
    (severity : string) : string :=
  match levels with
  | [] => severity
  | (level, keywords) :: rest =>
      if existsb (fun keyword => contains (lower keyword) (lower transcript)) keywords
      then level
      else first_level rest transcript severity
  end.

Definition determine_severity (transcript : string) : string :=
  first_level severity_keywords transcript "medium".

(** The loop over [location_markers], left at the first marker that gives
    a location of more than three characters and at most five words. *)
Fixpoint find_location (markers : list string) (transcript : string)
    (location : string) : string :=
  match markers with
  | [] => location
  | marker :: rest =>
      let sep := " " +:+ marker +:+ " " in
      if contains sep (lower transcript) then
        let parts := split_sep sep (lower transcript) in
        if (1 <? length parts)%nat then
          let location_part :=
            strip (hd EmptyString
                     (split_sep ","
                        (hd EmptyString (split_sep "." (nth 1 parts EmptyString))))) in
          if (3 <? String.length location_part)%nat
             && (word_count location_part <=? 5)%nat
          then location_part
          else find_location rest transcript location
        else find_location rest transcript location
      else find_location rest transcript location
  end.

Definition extract_location (transcript : string) : string :=
  find_location location_markers transcript "unknown".

Definition recommended_action (category severity : string) : string :=
  get_or severity
    (get_or category actions (get_or "unknown" actions []))
    (get_or "medium" (get_or "unknown" actions []) EmptyString).

Definition extract_emergency_details (transcript : string) : dict :=
  let category := determine_category transcript in
  let severity := determine_severity transcript in
  let location := extract_location transcript in
  let action := recommended_action category severity in
  dict_literal
    [("category", JStr category);
     ("severity", JStr severity);
     ("location", JStr location);
     ("action", JStr action)].

(** The text is empty or starts with a character that is not white space. *)
Definition starts_clean (s : string) : bool :=
  match s with
  | EmptyString => true
  | String c _ => negb (is_space c)
  end.

(** Every character of the string satisfies [P]. *)
Fixpoint all_chars (P : ascii -> bool) (s : string) : bool :=
  match s with
  | EmptyString => true
  | String c rest => P c && all_chars P rest
  end.

Definition is_not (c : ascii) (x : ascii) : bool := negb (bool_decide (x = c)).

Definition is_lower (c : ascii) : bool := bool_decide (lower_char c = c).

(** Some keyword of the list occurs in the transcript, whatever the case
    of its letters. *)
Definition mentions (keywords : list string) (transcript : string) : bool :=
  existsb (fun keyword => contains (lower keyword) (lower transcript)) keywords.

(** What the loop over the categories has found after the items of
    [seen]: nothing matched yet, or the best is the first item among those
    with the most matches. *)
Inductive best_of (transcript : string) (seen : list (string * list string))
    (best : string * nat) : Prop :=
| best_none :
    best = ("unknown", 0) →
    Forall (fun item => count_matches item.2 transcript = 0) seen →
    best_of transcript seen best
| best_some before keywords after :
    seen = (before ++ (best.1, keywords) :: after)%list →
    best.2 = count_matches keywords transcript →
    (0 < best.2)%nat →
    Forall (fun item => (count_matches item.2 transcript < best.2)%nat) before →
    Forall (fun item => (count_matches item.2 transcript ≤ best.2)%nat) after →
    best_of transcript seen best.

End Prep.

Import Prep.

(** Case analysis on which services are mocked. *)
Ltac case_services :=
  unfold recording_transcript, service_emotions, triage,
    asr_service, llm_service, emotion_service;
  repeat case_decide.

(** * Properties *)

(** ** [json.dumps] on the handlers' dictionaries *)

Example dumps_call_started :
  json_dumps (JObj (call_started_message "c1")) =
  "{" +:+ dquote +:+ "event" +:+ dquote +:+ ": " +:+ dquote +:+ "call_started" +:+ dquote
  +:+ ", " +:+ dquote +:+ "call_sid" +:+ dquote +:+ ": " +:+ dquote +:+ "c1" +:+ dquote
  +:+ ", " +:+ dquote +:+ "status" +:+ dquote +:+ ": " +:+ dquote +:+ "in-progress"
  +:+ dquote +:+ "}".
Proof. reflexivity. Qed.

Example dumps_nested :
  json_dumps (JObj [("a", JArr [JStr "x"; JNum "0.7"]); ("b", JObj [])]) =
  "{" +:+ dquote +:+ "a" +:+ dquote +:+ ": [" +:+ dquote +:+ "x" +:+ dquote +:+
  ", 0.7], " +:+ dquote +:+ "b" +:+ dquote +:+ ": {}}".
Proof. reflexivity. Qed.

Example dumps_escapes :
  json_dumps (JStr (String (ascii_of_N 10) (String (ascii_of_N 233) "\"))) =
  dquote +:+ "\n\u00e9\\" +:+ dquote.
Proof. reflexivity. Qed.

Example dict_literal_overrides :
  dict_literal [("a", JNum "1"); ("b", JNum "2"); ("a", JNum "3")] =
  [("a", JNum "3"); ("b", JNum "2")].
Proof. reflexivity. Qed.

(** ** The handlers *)

Lemma publish_or_warn_publish channel message b :
  publish_or_warn channel message b =
  mkBroadcast (url b) (publish channel message (broadcaster b)).
Proof. reflexivity. Qed.

(** Each handler changes the broadcaster by exactly one [publish], of its
    dumped event on its channel. *)
Lemma handler_publishes missing w request b :
  publishes b (handler missing w request b).2 (webhook_channel w)
    (webhook_event missing w request).
Proof. destruct w; reflexivity. Qed.

Lemma handler_status missing w request b :
  status_code (handler missing w request b).1 = 200.
Proof. destruct w; reflexivity. Qed.

Lemma handler_response_independent missing w request b b' :
  (handler missing w request b).1 = (handler missing w request b').1.
Proof. destruct w; reflexivity. Qed.

Lemma webhook_event_kind missing w request :
  dict_get "event" (webhook_event missing w request) = Some (JStr (webhook_kind w)).
Proof. destruct w; simpl; [done | done |]. case_services; reflexivity. Qed.

Lemma webhook_event_call_sid missing w request :
  dict_get "call_sid" (webhook_event missing w request) =
  Some (JStr (form_get (request_form request) "CallSid" "test-call-sid")).
Proof. destruct w; simpl; [done | done |]. case_services; reflexivity. Qed.

Lemma webhook_event_no_sequence_number missing w request :
  dict_get "sequence_number" (webhook_event missing w request) = None.
Proof.
  destruct w; simpl; [done | done |]. case_services; reflexivity.
Qed.

(** C5, as stated, fails: a [/twilio/call] request whose form has no
    [CallSid] is answered with a 2xx status. *)
Lemma call_without_CallSid_is_answered_200 :
  request_form (mkRequest (Some ∅)) !! "CallSid" = None ∧
  is_2xx (status_code (handle_call (mkRequest (Some ∅)) broadcast0).1) = true.
Proof. split; reflexivity. Qed.

(** C5, amended: a webhook request without [CallSid] (a form that cannot be
    parsed counts as empty) is not an error: the handler takes the default
    ["test-call-sid"], answers with status 200 and a body whose [call_sid]
    is the default, and publishes its event with that [call_sid]. *)
Theorem missing_CallSid_takes_default missing w request b :
  request_form request !! "CallSid" = None →
  let r := handler missing w request b in
  status_code r.1 = 200 ∧
  (∃ fields, body r.1 = JObj fields ∧
             dict_get "call_sid" fields = Some (JStr "test-call-sid")) ∧
  ∃ event, publishes b r.2 (webhook_channel w) event ∧
           dict_get "call_sid" event = Some (JStr "test-call-sid").
Proof.
  intros Hnone r. subst r.
  split; [apply handler_status |]. split.
  - destruct w; simpl; unfold form_get; rewrite Hnone; eexists; split;
      try reflexivity.
    case_services; reflexivity.
  - exists (webhook_event missing w request).
    split; [apply handler_publishes |].
    rewrite webhook_event_call_sid. unfold form_get. by rewrite Hnone.
Qed.

Lemma missing_CallSid_takes_default_witness :
  request_form (mkRequest None) !! "CallSid" = None ∧
  status_code (handler [] Recording (mkRequest None) broadcast0).1 = 200.
Proof.
  split; [reflexivity |].
  apply (missing_CallSid_takes_default [] Recording (mkRequest None) broadcast0).
  reflexivity.
Defined.

(** Whichever broadcaster the application runs with, each handler answers
    as with the broadcaster of this file and calls [publish] once, with
    its channel and the dump of its event; when the call raises, the
    broadcaster is left as it was. *)
Lemma handler_on_publishes {B} (broadcast_publish : string → pymsg → B → result B)
    missing w request (broadcast : B) :
  handler_on broadcast_publish missing w request broadcast =
  ((handler missing w request broadcast0).1,
   try_publish broadcast_publish (webhook_channel w)
     (MsgStr (event_text (webhook_event missing w request))) broadcast).
Proof. destruct w; reflexivity. Qed.

(** C6, as stated, fails: the event that [/twilio/recording] publishes on
    [transcripts] has the kind [new_transcript], which is none of the five
    kinds of the specification. *)
Lemma recording_event_kind_outside_spec_kinds :
  let request := mkRequest (Some {[ "CallSid" := "c1" ]}) in
  let event := webhook_event [] Recording request in
  (handle_recording_on [] record_publish request []).2 =
    [("transcripts", event_text event)] ∧
  publishes broadcast0 (handle_recording [] request broadcast0).2 "transcripts" event ∧
  dict_get "event" event = Some (JStr "new_transcript") ∧
  ("new_transcript" ∉ spec_event_kinds).
Proof.
  repeat split.
  unfold spec_event_kinds. intros H.
  rewrite !elem_of_cons, elem_of_nil in H. intuition discriminate.
Qed.

(** C6, amended: every event a webhook handler publishes has its kind in
    [call_started], [new_transcript], [new_response].  Whichever
    broadcaster the application runs with, the handler of [/twilio/call]
    calls its [publish] once, on [calls] with an event of kind
    [call_started], that of [/twilio/recording] once, on [transcripts] with
    an event of kind [new_transcript], and that of [/twilio/response] once,
    on [responses] with an event of kind [new_response]. *)
Theorem published_event_kinds missing w request b :
  ∃ event,
    publishes b (handler missing w request b).2 (webhook_channel w) event ∧
    dict_get "event" event = Some (JStr (webhook_kind w)) ∧
    webhook_kind w ∈ event_kinds ∧
    (webhook_kind Call, webhook_channel Call) = ("call_started", "calls") ∧
    (webhook_kind Recording, webhook_channel Recording) = ("new_transcript", "transcripts") ∧
    (webhook_kind Respond, webhook_channel Respond) = ("new_response", "responses") ∧
    (∀ B (broadcast_publish : string → pymsg → B → result B) (broadcast : B),
       (handler_on broadcast_publish missing w request broadcast).2 =
       try_publish broadcast_publish (webhook_channel w) (MsgStr (event_text event))
         broadcast) ∧
    (∀ calls,
       (handler_on record_publish missing w request calls).2 =
       (calls ++ [(webhook_channel w, event_text event)])%list) ∧
    (∀ B (broadcast_publish : string → pymsg → B → result B) (broadcast : B),
       (∃ e, dict_get "event" e = Some (JStr "call_started") ∧
             (handle_call_on broadcast_publish request broadcast).2 =
             try_publish broadcast_publish "calls" (MsgStr (event_text e)) broadcast) ∧
       (∃ e, dict_get "event" e = Some (JStr "new_transcript") ∧
             (handle_recording_on missing broadcast_publish request broadcast).2 =
             try_publish broadcast_publish "transcripts" (MsgStr (event_text e))
               broadcast) ∧
       (∃ e, dict_get "event" e = Some (JStr "new_response") ∧
             (handle_response_on missing broadcast_publish request broadcast).2 =
             try_publish broadcast_publish "responses" (MsgStr (event_text e))
               broadcast)).
Proof.
  exists (webhook_event missing w request).
  split; [apply handler_publishes |].
  split; [apply webhook_event_kind |].
  split; [unfold event_kinds; destruct w; simpl; set_solver |].
  split; [done |]. split; [done |]. split; [done |].
  split; [| split].
  - intros B p x. by rewrite handler_on_publishes.
  - intros calls. by rewrite handler_on_publishes.
  - intros B p x. split; [| split].
    + exists (webhook_event missing Call request).
      split; [apply webhook_event_kind |].
      apply (f_equal snd (handler_on_publishes p missing Call request x)).
    + exists (webhook_event missing Recording request).
      split; [apply webhook_event_kind |].
      apply (f_equal snd (handler_on_publishes p missing Recording request x)).
    + exists (webhook_event missing Respond request).
      split; [apply webhook_event_kind |].
      apply (f_equal snd (handler_on_publishes p missing Respond request x)).
Qed.

(** C9: the dictionary that [/twilio/response] publishes on [responses] is
    the response body with one more field in front, [event], whose value is
    [new_response]; the body itself has no [event] field, and every other
    field has the same value in both. *)
Theorem response_event_is_body_plus_event missing request b :
  let r := handle_response missing request b in
  ∃ response,
    body r.1 = JObj response ∧
    publishes b r.2 "responses" (("event", JStr "new_response") :: response) ∧
    dict_get "event" response = None ∧
    ∀ k, k ≠ "event" →
         dict_get k (("event", JStr "new_response") :: response) = dict_get k response.
Proof.
  intros r. subst r.
  exists (triage_response
            (form_get (request_form request) "CallSid" "test-call-sid")
            (triage missing (form_get (request_form request) "Transcript" "Mock transcript"))
            (service_emotions missing
               (form_get (request_form request) "Transcript" "Mock transcript"))).
  split; [reflexivity |]. split; [| split].
  - pose proof (handler_publishes missing Respond request b) as H.
    unfold publishes in *. simpl handler in H. rewrite H. do 4 f_equal.
    simpl. case_services; reflexivity.
  - case_services; reflexivity.
  - intros k Hk. simpl. by rewrite decide_False.
Qed.

(** C10: the answer of [/twilio/response] and the message it publishes
    are functions of the form fields [CallSid] and [Transcript] alone,
    whichever services are mocked and whatever the state of the broadcaster
    and the other form fields. *)
Theorem handle_response_deterministic missing request1 request2 b1 b2 :
  request_form request1 !! "CallSid" = request_form request2 !! "CallSid" →
  request_form request1 !! "Transcript" = request_form request2 !! "Transcript" →
  (handle_response missing request1 b1).1 = (handle_response missing request2 b2).1 ∧
  ∃ event,
    publishes b1 (handle_response missing request1 b1).2 "responses" event ∧
    publishes b2 (handle_response missing request2 b2).2 "responses" event.
Proof.
  intros Hc Ht.
  assert (Hsid : form_get (request_form request1) "CallSid" "test-call-sid" =
                 form_get (request_form request2) "CallSid" "test-call-sid")
    by (unfold form_get; by rewrite Hc).
  assert (Htr : form_get (request_form request1) "Transcript" "Mock transcript" =
                form_get (request_form request2) "Transcript" "Mock transcript")
    by (unfold form_get; by rewrite Ht).
  split.
  - unfold handle_response, handle_response_on. simpl. by rewrite Hsid, Htr.
  - exists (webhook_event missing Respond request1). split.
    + apply (handler_publishes missing Respond).
    + pose proof (handler_publishes missing Respond request2 b2) as H.
      simpl in H. unfold webhook_event in *. by rewrite Hsid, Htr.
Qed.

Lemma handle_response_deterministic_witness :
  let all_mocked := ["transformers"; "torch"; "hume"; "openai-whisper"; "broadcaster"] in
  let request1 := mkRequest (Some {[ "CallSid" := "c1"; "Transcript" := "help" ]}) in
  let request2 :=
    mkRequest (Some {[ "CallSid" := "c1"; "Transcript" := "help"; "From" := "+91" ]}) in
  let b2 := mkBroadcast "memory://" (anext (subscribe "responses") MockBroadcaster_init).1.2 in
  (handle_response all_mocked request1 broadcast0).1 =
  (handle_response all_mocked request2 b2).1.
Proof.
  intros all_mocked request1 request2 b2.
  apply (handle_response_deterministic all_mocked request1 request2 broadcast0 b2);
    vm_compute; reflexivity.
Defined.

(** ** The broadcaster *)

Lemma foldr_queue_put_lookup m (l : list nat) (h : gmap nat (list string)) q :
  NoDup l →
  foldr (queue_put m) h l !! q =
  if decide (q ∈ l) then (λ items, items ++ [m])%list <$> h !! q else h !! q.
Proof.
  induction 1 as [| x l Hx Hl IH]; simpl.
  - done.
  - unfold queue_put at 1. rewrite lookup_alter.
    destruct (decide (x = q)) as [-> | Hne]; rewrite IH; clear IH;
      destruct (decide (q ∈ l)) as [Hin | Hnin],
        (decide (q ∈ _ :: l)) as [Hc | Hc]; try done; exfalso; set_solver.
Qed.

(** [publish] appends the text to the queue of every subscriber and to no
    other queue. *)
Lemma publish_queue channel message b q :
  queues (publish channel message b) !! q =
  if decide (q ∈ subscribers b)
  then (λ items, items ++ [message_text message])%list <$> queues b !! q
  else queues b !! q.
Proof.
  unfold publish. simpl.
  rewrite foldr_queue_put_lookup by apply NoDup_elements.
  destruct (decide (q ∈ elements (subscribers b))) as [Hin | Hnin],
    (decide (q ∈ subscribers b)) as [Hc | Hc]; try done; exfalso; set_solver.
Qed.

(** ** Replayed recordings *)

Lemma handle_recording_publishes missing request b :
  (handle_recording missing request b).2 =
  mkBroadcast (url b)
    (publish "transcripts"
       (MsgStr (event_text (webhook_event missing Recording request))) (broadcaster b)).
Proof. reflexivity. Qed.

Lemma deliveries_keep_subscribers missing request b n :
  subscribers (broadcaster (Nat.iter n (fun x => (handle_recording missing request x).2) b))
  = subscribers (broadcaster b).
Proof.
  induction n as [| n IH]; [done |]. rewrite Nat.iter_succ.
  by rewrite handle_recording_publishes.
Qed.

(** C8, as stated, fails: the handler keeps no transcript that a replay
    could overwrite; the second delivery of the same request publishes the
    transcript once more, and a subscriber holds it twice. *)
Lemma recording_replay_publishes_the_transcript_again :
  let request := mkRequest (Some {[ "CallSid" := "c1"; "RecordingSid" := "R1" ]}) in
  let b := set_broadcaster (anext (subscribe "transcripts") MockBroadcaster_init).1.2
             broadcast0 in
  let first := handle_recording [] request b in
  let replay := handle_recording [] request first.2 in
  let text := event_text (webhook_event [] Recording request) in
  queues (broadcaster first.2) !! 0 = Some [text] ∧
  queues (broadcaster replay.2) !! 0 = Some [text; text] ∧
  (handle_recording_on [] record_publish request
     (handle_recording_on [] record_publish request []).2).2 =
  [("transcripts", text); ("transcripts", text)].
Proof. vm_compute. repeat split. Qed.

(** C8, amended: the handler of [/twilio/recording] keeps no transcript.
    Every delivery of a request answers with the same body, whose
    transcript is the one sentence of the transcription stage (that of
    [MockASR] or the built-in one), never a concatenation; and every
    delivery publishes the same [new_transcript] event once more, so after
    [n] deliveries every subscriber holds [n] more copies of it: the
    replay adds, it does not overwrite. *)
Theorem recording_replay_republishes missing request b n :
  let transcript :=
    if decide ("openai-whisper" ∈ missing)
    then "This is a mock transcription for testing purposes."
    else "This is a mock transcript for testing purposes." in
  let event := webhook_event missing Recording request in
  let deliver := fun x => (handle_recording missing request x).2 in
  dict_get "transcript" event = Some (JStr transcript) ∧
  (∀ b', (handle_recording missing request b').1 = (handle_recording missing request b).1 ∧
         ∃ fields, body (handle_recording missing request b').1 = JObj fields ∧
                   dict_get "transcript" fields = Some (JStr transcript)) ∧
  (∀ q items,
     q ∈ subscribers (broadcaster b) →
     queues (broadcaster b) !! q = Some items →
     queues (broadcaster (Nat.iter n deliver b)) !! q =
     Some (items ++ replicate n (event_text event))%list) ∧
  ∀ calls,
    Nat.iter n (fun x => (handle_recording_on missing record_publish request x).2) calls =
    (calls ++ replicate n ("transcripts", event_text event))%list.
Proof.
  intros transcript event deliver. subst transcript event deliver.
  split; [| split; [| split]].
  - unfold webhook_event. case_services; reflexivity.
  - intros b'. split; [reflexivity |].
    eexists. split; [reflexivity |]. case_services; reflexivity.
  - intros q items Hq Hitems. induction n as [| n IH].
    + by rewrite app_nil_r.
    + rewrite Nat.iter_succ, handle_recording_publishes. cbn [broadcaster].
      rewrite publish_queue, decide_True
        by (by rewrite (deliveries_keep_subscribers missing request b n)).
      rewrite IH. cbn [fmap option_fmap option_map message_text].
      by rewrite replicate_S_end, app_assoc.
  - intros calls. induction n as [| n IH].
    + by rewrite app_nil_r.
    + rewrite Nat.iter_succ, IH.
      pose proof (handler_on_publishes record_publish missing Recording request
                    (calls ++ replicate n ("transcripts",
                       event_text (webhook_event missing Recording request)))%list) as H.
      apply (f_equal snd) in H. cbn [handler_on snd] in H. rewrite H.
      unfold try_publish, record_publish. cbn [message_text webhook_channel].
      by rewrite replicate_S_end, app_assoc.
Qed.

Lemma recording_replay_republishes_witness :
  let request := mkRequest (Some {[ "CallSid" := "c1"; "RecordingSid" := "R1" ]}) in
  let b := set_broadcaster (anext (subscribe "transcripts") MockBroadcaster_init).1.2
             broadcast0 in
  0 ∈ subscribers (broadcaster b) ∧
  queues (broadcaster b) !! 0 = Some [] ∧
  queues (broadcaster
            (Nat.iter 2 (fun x => (handle_recording [] request x).2) b)) !! 0 =
  Some ([] ++ replicate 2 (event_text (webhook_event [] Recording request)))%list.
Proof.
  intros request b.
  assert (Hin : 0 ∈ subscribers (broadcaster b)) by (vm_compute; set_solver).
  assert (Hq : queues (broadcaster b) !! 0 = Some []) by (vm_compute; reflexivity).
  split; [exact Hin |]. split; [exact Hq |].
  by apply (recording_replay_republishes [] request b 2).
Defined.

(** ** The running system *)

Section Run_facts.

Variable missing : list string.

Lemma step_publisher o s :
  published_text missing o ≠ [] →
  ∃ channel message,
    published_text missing o = [message_text message] ∧
    (step missing o s).1 =
    mkSys (set_broadcaster (publish channel message (broadcaster (bcast s))) (bcast s))
      (gens s) ∧
    yielded_none (step missing o s).2.
Proof.
  destruct o as [channel message | w request | | |]; simpl; try done; intros _.
  - by exists channel, message.
  - exists (webhook_channel w),
      (MsgStr (json_dumps (JObj (webhook_event missing w request)))).
    split; [done |]. split; [| done].
    by rewrite (handler_publishes missing w request (bcast s)).
Qed.

Lemma wf_sys0 : wf sys0.
Proof. split; intros *; simpl; by rewrite lookup_empty. Qed.

Lemma wf_step o s : wf s → wf (step missing o s).1.
Proof.
  intros [Hown Hinj].
  destruct (decide (published_text missing o = [])) as [Hnil | Hpub].
  2: {
    destruct (step_publisher o s Hpub) as (channel & message & _ & -> & _).
    split; cbn [bcast gens broadcaster set_broadcaster]; [| done].
    intros g ch q Hg. destruct (Hown g ch q Hg) as (Hin & Hsome & Hlt).
    split; [done |]. split; [| done].
    rewrite publish_queue, decide_True by done. by apply fmap_is_Some. }
  destruct o as [| | g channel | g | g]; simpl in *; try done.
  - destruct (gens s !! g) eqn:Hg; [done |]. simpl. split; simpl.
    + intros g' ch q Hg'. apply lookup_insert_Some in Hg' as [[_ ?] | [_ Hg']]; [done |].
      eauto.
    + intros g1 g2 ch1 ch2 q H1 H2.
      apply lookup_insert_Some in H1 as [[_ ?] | [_ H1]]; [done |].
      apply lookup_insert_Some in H2 as [[_ ?] | [_ H2]]; [done |]. eauto.
  - destruct (gens s !! g) as [gen |] eqn:Hg; [| done].
    destruct gen as [ch | ch q |]; simpl.
    + unfold queue_get. simpl. rewrite lookup_insert_eq. simpl. split; simpl.
      * intros g' ch' q' Hg'.
        apply lookup_insert_Some in Hg' as [[<- [= <- <-]] | [Hne Hg']].
        -- split; [set_solver |]. rewrite lookup_insert_eq. split; [done | lia].
        -- destruct (Hown g' ch' q' Hg') as (Hin & Hsome & Hlt).
           split; [set_solver |]. rewrite lookup_insert_ne by lia. split; [done | lia].
      * intros g1 g2 ch1 ch2 q' H1 H2.
        apply lookup_insert_Some in H1 as [[? ?] | [Hne1 H1]];
          apply lookup_insert_Some in H2 as [[? ?] | [Hne2 H2]];
          simplify_eq; try done.
        -- destruct (Hown _ _ _ H2) as (_ & _ & Hlt). lia.
        -- destruct (Hown _ _ _ H1) as (_ & _ & Hlt). lia.
        -- eauto.
    + assert (Hsame : ∀ g' ch' q', <[g := GenSuspended ch q]> (gens s) !! g' =
                        Some (GenSuspended ch' q') →
                      gens s !! g' = Some (GenSuspended ch' q')).
      { intros g' ch' q' Hg'.
        apply lookup_insert_Some in Hg' as [[<- [= <- <-]] | [_ Hg']]; done. }
      unfold queue_get.
      destruct (queues (broadcaster (bcast s)) !! q) as [[| m rest] |] eqn:Hq; simpl;
        (split; simpl;
         [ intros g' ch' q' Hg'%Hsame;
           destruct (Hown g' ch' q' Hg') as (Hin & Hsome & Hlt);
           repeat split; try done;
           try (destruct (decide (q = q')) as [-> | Hne];
                [by rewrite lookup_insert_eq | by rewrite lookup_insert_ne])
         | intros g1 g2 ch1 ch2 q' H1%Hsame H2%Hsame; eauto ]).
    + split; simpl.
      * intros g' ch' q' Hg'.
        apply lookup_insert_Some in Hg' as [[_ ?] | [_ Hg']]; [done | eauto].
      * intros g1 g2 ch1 ch2 q' H1 H2.
        apply lookup_insert_Some in H1 as [[_ ?] | [_ H1]]; [done |].
        apply lookup_insert_Some in H2 as [[_ ?] | [_ H2]]; [done |]. eauto.
  - destruct (gens s !! g) as [gen |] eqn:Hg; [| done].
    assert (Hsame : ∀ g' ch' q', <[g := GenClosed]> (gens s) !! g' =
                      Some (GenSuspended ch' q') →
                    g' ≠ g ∧ gens s !! g' = Some (GenSuspended ch' q')).
    { intros g' ch' q' Hg'.
      apply lookup_insert_Some in Hg' as [[_ ?] | [? Hg']]; done. }
    destruct gen as [ch | ch q |]; simpl.
    + split; simpl.
      * intros g' ch' q' [_ Hg']%Hsame. eauto.
      * intros g1 g2 ch1 ch2 q' [_ H1]%Hsame [_ H2]%Hsame. eauto.
    + destruct (Hown g ch q Hg) as (Hin & _ & _).
      unfold set_remove. rewrite decide_True by done. simpl. split; simpl.
      * intros g' ch' q' [Hne Hg']%Hsame.
        destruct (Hown g' ch' q' Hg') as (Hin' & Hsome & Hlt).
        repeat split; try done.
        assert (q' ≠ q) by (intros ->; apply Hne; eauto). set_solver.
      * intros g1 g2 ch1 ch2 q' [_ H1]%Hsame [_ H2]%Hsame. eauto.
    + split; simpl.
      * intros g' ch' q' [_ Hg']%Hsame. eauto.
      * intros g1 g2 ch1 ch2 q' [_ H1]%Hsame [_ H2]%Hsame. eauto.
Qed.

Lemma wf_run t s : wf s → wf (run missing t s).
Proof.
  revert s. induction t as [| o t IH]; intros s Hwf; simpl; [done |].
  by apply IH, wf_step.
Qed.

End Run_facts.

Section Stream_facts.

Variable missing : list string.

(** Except when [g] itself is closed with items still queued, one turn
    keeps the balance of generator [g]: what waited in its queue and what
    was published is what it was handed and what waits now. *)
Lemma step_balance g o s :
  wf s →
  (o = OpClose g → is_suspended (gens s !! g) = false) →
  (pending g s ++ (if is_suspended (gens s !! g) then published_text missing o else []))%list
  = (yielded g (step missing o s).2 ++ pending g (step missing o s).1)%list.
Proof.
  intros [Hown Hinj] Hclose.
  destruct (decide (published_text missing o = [])) as [Hnil | Hpub].
  2: {
    destruct (step_publisher missing o s Hpub) as (channel & message & -> & -> & ->).
    unfold pending. cbn [bcast gens broadcaster set_broadcaster app].
    destruct (gens s !! g) as [[ch | ch q |] |] eqn:Hg;
      cbn [is_suspended app]; try done.
    destruct (Hown g ch q Hg) as (Hin & [items Hitems] & _).
    rewrite publish_queue, decide_True, Hitems by done. done. }
  rewrite Hnil. replace (if is_suspended (gens s !! g) then [] else []) with (@nil string)
    by (by destruct (is_suspended _)).
  rewrite app_nil_r.
  destruct o as [| | g' channel | g' | g']; simpl in Hnil; try done; simpl.
  - destruct (gens s !! g') eqn:Hg'; simpl; [done |].
    unfold pending. simpl.
    destruct (decide (g' = g)) as [-> | Hne].
    + by rewrite lookup_insert_eq, Hg'.
    + by rewrite lookup_insert_ne.
  - destruct (gens s !! g') as [gen |] eqn:Hg'; simpl; [| done].
    destruct gen as [ch | ch q |]; simpl.
    + unfold queue_get. simpl. rewrite lookup_insert_eq. simpl.
      unfold pending. simpl.
      destruct (decide (g' = g)) as [-> | Hne].
      * by rewrite lookup_insert_eq, Hg', lookup_insert_eq.
      * rewrite lookup_insert_ne by done.
        destruct (gens s !! g) as [[ch' | ch' q' |] |] eqn:Hg; try done.
        destruct (Hown g ch' q' Hg) as (_ & _ & Hlt).
        by rewrite lookup_insert_ne by lia.
    + unfold queue_get, pending.
      destruct (decide (g' = g)) as [-> | Hne].
      * rewrite Hg'.
        destruct (queues (broadcaster (bcast s)) !! q) as [[| m rest] |] eqn:Hq;
          simpl; rewrite ?decide_True by done; rewrite lookup_insert_eq; simpl;
          rewrite ?Hq, ?lookup_insert_eq; done.
      * assert (Hother : ∀ ch' q', gens s !! g = Some (GenSuspended ch' q') → q ≠ q').
        { intros ch' q' Hg ->. apply Hne. eauto. }
        destruct (queues (broadcaster (bcast s)) !! q) as [[| m rest] |] eqn:Hq;
          simpl; rewrite ?decide_False by done; rewrite lookup_insert_ne by done;
          simpl; try done.
        destruct (gens s !! g) as [[ch' | ch' q' |] |] eqn:Hg; try done.
        by rewrite lookup_insert_ne by eauto.
    + unfold pending. simpl.
      destruct (decide (g' = g)) as [-> | Hne].
      * by rewrite lookup_insert_eq, Hg'.
      * by rewrite lookup_insert_ne.
  - destruct (gens s !! g') as [gen |] eqn:Hg'; simpl; [| done].
    unfold pending.
    destruct (decide (g' = g)) as [-> | Hne].
    + specialize (Hclose eq_refl). rewrite Hg' in Hclose |- *.
      destruct gen as [ch | ch q |]; simpl in *; try done;
        by rewrite lookup_insert_eq.
    + cbn [gens]. rewrite lookup_insert_ne by done.
      destruct gen as [ch | ch q |]; simpl; try done.
      destruct (set_remove q _); done.
Qed.

(** A closed generator stays closed, is handed nothing and is fed nothing. *)
Lemma step_closed g o s :
  gens s !! g = Some GenClosed → gens (step missing o s).1 !! g = Some GenClosed ∧
                                yielded g (step missing o s).2 = [].
Proof.
  intros Hg.
  destruct o as [| | g' channel | g' | g']; simpl; try done.
  - destruct (gens s !! g') eqn:Hg'; simpl; [done |].
    rewrite lookup_insert_ne; [done |]. congruence.
  - destruct (gens s !! g') as [gen |] eqn:Hg'; simpl; [| done].
    destruct (decide (g' = g)) as [-> | Hne].
    + rewrite lookup_insert_eq. by simplify_eq.
    + rewrite lookup_insert_ne by done. split; [done |].
      destruct (anext gen _).2; simpl; try done; by rewrite decide_False.
  - destruct (gens s !! g') as [gen |] eqn:Hg'; simpl; [| done].
    destruct (decide (g' = g)) as [-> | Hne].
    + rewrite lookup_insert_eq. by simplify_eq.
    + by rewrite lookup_insert_ne by done.
Qed.

Lemma closed_forever g t s :
  gens s !! g = Some GenClosed →
  received missing g t s = [] ∧ feed missing g t s = [] ∧
  gens (run missing t s) !! g = Some GenClosed.
Proof.
  revert s. induction t as [| o t IH]; intros s Hg; simpl; [done |].
  destruct (step_closed g o s Hg) as [Hg' ->].
  destruct (IH _ Hg') as (-> & -> & ->). by rewrite Hg.
Qed.

End Stream_facts.

Section Stream_balance.

Variable missing : list string.

Lemma close_closes g s gen :
  gens s !! g = Some gen →
  gens (step missing (OpClose g) s).1 !! g = Some GenClosed.
Proof.
  intros Hg. simpl. rewrite Hg. simpl. rewrite lookup_insert_eq. f_equal.
  destruct gen as [ch | ch q |]; simpl; try done.
  by destruct (set_remove q _).
Qed.

(** Over a whole trace: what generator [g] is handed is, in order, a prefix
    of what waited for it at the start followed by what was published while
    it was inside its [try]; while it is still there, the rest waits in its
    queue. *)
Lemma stream_balance g t s :
  wf s →
  ∃ rest,
    (pending g s ++ feed missing g t s)%list = (received missing g t s ++ rest)%list ∧
    (is_suspended (gens (run missing t s) !! g) = true →
     rest = pending g (run missing t s)).
Proof.
  revert s. induction t as [| o t IH]; intros s Hwf; simpl.
  - exists (pending g s). by rewrite app_nil_r.
  - assert (Hcases : (o = OpClose g ∧ is_suspended (gens s !! g) = true) ∨
                     (o = OpClose g → is_suspended (gens s !! g) = false)).
    { destruct (is_suspended (gens s !! g)); [| by right].
      destruct o as [| | | | g']; try (by right).
      destruct (decide (g' = g)) as [-> | Hne]; [by left | right; congruence]. }
    destruct Hcases as [[-> Hsusp] | Hno].
    + destruct (gens s !! g) as [gen |] eqn:Hg; [| done].
      pose proof (close_closes g s gen Hg) as Hclosed.
      destruct (closed_forever missing g t _ Hclosed) as (-> & -> & ->).
      exists (pending g s). simpl. rewrite Hg. simpl.
      split; [| done]. destruct gen; by rewrite app_nil_r.
    + destruct (IH _ (wf_step missing o s Hwf)) as (rest & Heq & Hrest).
      exists rest. split; [| done].
      rewrite app_assoc, step_balance by done.
      by rewrite <- !app_assoc, Heq.
Qed.

Lemma received_app g t1 t2 s :
  received missing g (t1 ++ t2) s =
  (received missing g t1 s ++ received missing g t2 (run missing t1 s))%list.
Proof.
  revert s. induction t1 as [| o t1 IH]; intros s; simpl; [done |].
  by rewrite IH, app_assoc.
Qed.

Lemma feed_app g t1 t2 s :
  feed missing g (t1 ++ t2) s =
  (feed missing g t1 s ++ feed missing g t2 (run missing t1 s))%list.
Proof.
  revert s. induction t1 as [| o t1 IH]; intros s; simpl; [done |].
  by rewrite IH, app_assoc.
Qed.

(** A consumer that keeps asking is handed everything that waits. *)
Lemma drain g s items :
  is_suspended (gens s !! g) = true →
  pending g s = items →
  received missing g (replicate (length items) (OpNext g)) s = items.
Proof.
  revert s. induction items as [| m rest IH]; intros s Hsusp Hpend; simpl; [done |].
  unfold pending in Hpend.
  destruct (gens s !! g) as [[ch | ch q |] |] eqn:Hg; try done.
  unfold anext, queue_get.
  destruct (queues (broadcaster (bcast s)) !! q) as [items' |] eqn:Hq;
    simpl in Hpend; [| done]. subst items'. simpl.
  rewrite decide_True by done. simpl. f_equal.
  apply IH; unfold pending; simpl; rewrite lookup_insert_eq; [done |].
  simpl. by rewrite lookup_insert_eq.
Qed.

End Stream_balance.

(** C3, as stated, fails: a subscriber of [calls] is handed an event
    published to [transcripts]. *)
Lemma calls_subscriber_gets_transcripts_event :
  outputs []
    [OpSubscribe 0 "calls"; OpNext 0;
     OpPublish "transcripts" (MsgStr "t1"); OpNext 0] sys0 =
  [Silent; Next 0 Waiting; Silent; Next 0 (Yielded "t1")].
Proof. vm_compute. reflexivity. Qed.

(** C3, amended: the generator of [subscribe(channel)] is handed, in the
    order of publication, events published on any channel from the moment
    its body started (its first [__anext__], when its queue joins the set)
    until it is closed, and nothing else: what it has been handed is a
    prefix of them, the rest waits in its queue while it is subscribed, and
    a consumer that keeps asking is handed all of them.  Nothing published
    before its body started reaches it; the channel plays no part. *)
Theorem subscriber_gets_what_is_published_while_subscribed missing t g :
  let s := run missing t sys0 in
  ∃ rest,
    feed missing g t sys0 = (received missing g t sys0 ++ rest)%list ∧
    (is_suspended (gens s !! g) = true →
     rest = pending g s ∧
     received missing g (t ++ replicate (length rest) (OpNext g)) sys0 =
     feed missing g t sys0).
Proof.
  intros s.
  destruct (stream_balance missing g t sys0 wf_sys0) as (rest & Heq & Hrest).
  exists rest. split; [exact Heq |].
  intros Hsusp. specialize (Hrest Hsusp). split; [done |].
  rewrite received_app. change (pending g sys0) with (@nil string) in Heq.
  simpl in Heq. rewrite Heq. f_equal.
  by apply drain.
Qed.

Lemma subscriber_gets_what_is_published_while_subscribed_witness :
  let t := [OpPublish "calls" (MsgStr "e0"); OpSubscribe 7 "calls"; OpNext 7;
            OpPublish "calls" (MsgStr "e1"); OpPublish "responses" (MsgStr "e2");
            OpNext 7] in
  is_suspended (gens (run [] t sys0) !! 7) = true ∧
  feed [] 7 t sys0 = ["e1"; "e2"] ∧
  received [] 7 t sys0 = ["e1"] ∧
  ∃ rest, feed [] 7 t sys0 = (received [] 7 t sys0 ++ rest)%list ∧
          (is_suspended (gens (run [] t sys0) !! 7) = true →
           rest = pending 7 (run [] t sys0) ∧
           received [] 7 (t ++ replicate (length rest) (OpNext 7)) sys0 =
           feed [] 7 t sys0).
Proof.
  intros t. split; [vm_compute; reflexivity |].
  split; [vm_compute; reflexivity |]. split; [vm_compute; reflexivity |].
  apply (subscriber_gets_what_is_published_while_subscribed [] t 7).
Defined.

Section Retired.

Variable missing : list string.

(** In a well-formed system no [finally] clause finds its queue gone. *)
Lemma step_no_raise o s : wf s → raised (step missing o s).2 = false.
Proof.
  intros [Hown _].
  destruct o as [| | g channel | g | g]; simpl; try done.
  - by destruct (gens s !! g).
  - by destruct (gens s !! g).
  - destruct (gens s !! g) as [[ch | ch q |] |] eqn:Hg; simpl; try done.
    destruct (Hown g ch q Hg) as (Hin & _ & _).
    unfold set_remove. by rewrite decide_True.
Qed.

Lemma outputs_no_raise t s :
  wf s → Forall (λ out, raised out = false) (outputs missing t s).
Proof.
  revert s. induction t as [| o t IH]; intros s Hwf; simpl; constructor.
  - by apply step_no_raise.
  - by apply IH, wf_step.
Qed.

(** The queue of a generator that has left its [try] never comes back into
    the set and is never written again. *)
Lemma retired_step q o s :
  wf s → retired q s →
  retired q (step missing o s).1 ∧
  queues (broadcaster (bcast (step missing o s).1)) !! q =
  queues (broadcaster (bcast s)) !! q.
Proof.
  intros [Hown Hinj] (Hnin & Hlt & Hfree).
  destruct (decide (published_text missing o = [])) as [Hnil | Hpub].
  2: {
    destruct (step_publisher missing o s Hpub) as (channel & message & _ & -> & _).
    unfold retired. cbn [bcast gens broadcaster set_broadcaster].
    split; [done |]. by rewrite publish_queue, decide_False. }
  destruct o as [| | g channel | g | g]; simpl in Hnil; try done; simpl.
  - destruct (gens s !! g) eqn:Hg; simpl; [done |].
    split; [| done]. split; [done |]. split; [done |]. simpl.
    intros g' ch' Hg'. apply lookup_insert_Some in Hg' as [[_ ?] | [_ Hg']]; [done |].
    by eapply Hfree.
  - destruct (gens s !! g) as [gen |] eqn:Hg; simpl; [| done].
    destruct gen as [ch | ch q' |]; simpl.
    + unfold queue_get. simpl. rewrite lookup_insert_eq. simpl.
      split; [| by rewrite lookup_insert_ne by lia].
      split; simpl; [set_solver by lia |]. split; [lia |].
      intros g' ch' Hg'.
      apply lookup_insert_Some in Hg' as [[_ ?] | [_ Hg']];
        [simplify_eq; lia | by eapply Hfree].
    + assert (q' ≠ q) by (intros ->; by eapply Hfree).
      unfold queue_get.
      destruct (queues (broadcaster (bcast s)) !! q') as [[| m rest] |] eqn:Hq; simpl;
        rewrite ?lookup_insert_ne by done;
        (split; [| done]; split; [done |]; split; [done |]; simpl;
         intros g' ch' Hg';
         apply lookup_insert_Some in Hg' as [[_ ?] | [_ Hg']];
         [simplify_eq | by eapply Hfree]).
    + split; [| done]. split; [done |]. split; [done |]. simpl.
      intros g' ch' Hg'. apply lookup_insert_Some in Hg' as [[_ ?] | [_ Hg']]; [done |].
      by eapply Hfree.
  - destruct (gens s !! g) as [gen |] eqn:Hg; simpl; [| done].
    assert (Hgens : ∀ g' ch', <[g := (aclose gen (broadcaster (bcast s))).1.1]> (gens s) !! g'
                              ≠ Some (GenSuspended ch' q)).
    { intros g' ch' Hg'. apply lookup_insert_Some in Hg' as [[_ Hc] | [_ Hg']].
      - destruct gen as [| ? q' |]; simpl in Hc; try done.
        by destruct (set_remove q' _).
      - by eapply Hfree. }
    destruct gen as [ch | ch q' |]; simpl in *; try done.
    destruct (set_remove q' _) as [subs |] eqn:Hrm; simpl in *; [| done].
    unfold set_remove in Hrm. case_decide; simplify_eq.
    split; [| done]. split; [simpl; set_solver | done].
Qed.

Lemma retired_run q t s :
  wf s → retired q s →
  retired q (run missing t s) ∧
  queues (broadcaster (bcast (run missing t s))) !! q =
  queues (broadcaster (bcast s)) !! q.
Proof.
  revert s. induction t as [| o t IH]; intros s Hwf Hret; simpl; [done |].
  destruct (retired_step q o s Hwf Hret) as [Hret' Hq].
  destruct (IH _ (wf_step missing o s Hwf) Hret') as [? Hq'].
  split; [done |]. by rewrite Hq'.
Qed.

(** Closing a generator inside its [try] runs [subscribers.remove(queue)]
    without error and retires its queue. *)
Lemma close_retires g ch q s :
  wf s → gens s !! g = Some (GenSuspended ch q) →
  (step missing (OpClose g) s).2 = Closed g None ∧
  retired q (step missing (OpClose g) s).1 ∧
  queues (broadcaster (bcast (step missing (OpClose g) s).1)) !! q =
  queues (broadcaster (bcast s)) !! q.
Proof.
  intros [Hown Hinj] Hg. destruct (Hown g ch q Hg) as (Hin & _ & Hlt).
  simpl. rewrite Hg. simpl. unfold set_remove. rewrite decide_True by done. simpl.
  split; [done |]. split; [| done].
  split; simpl; [set_solver |]. split; [done |].
  intros g' ch' Hg'. apply lookup_insert_Some in Hg' as [[_ ?] | [Hne Hg']]; [done |].
  apply Hne. eauto.
Qed.

End Retired.

(** C7: when the subscription stream of a consumer ends (its generator is
    closed or an exception is thrown into it while it waits), the [finally]
    clause removes its queue from the subscriber set without error; from
    then on, whatever is published and whatever the other consumers do, the
    queue is not in the set, nothing is appended to it, the closed generator
    is handed nothing, no later [finally] clause raises and every
    [publish] succeeds. *)
Theorem closed_subscription_leaves_the_set missing t0 g ch q :
  let s := run missing t0 sys0 in
  gens s !! g = Some (GenSuspended ch q) →
  let closed := step missing (OpClose g) s in
  closed.2 = Closed g None ∧
  ∀ t,
    let s' := run missing t closed.1 in
    (q ∉ subscribers (broadcaster (bcast s'))) ∧
    queues (broadcaster (bcast s')) !! q = queues (broadcaster (bcast s)) !! q ∧
    received missing g t closed.1 = [] ∧
    Forall (λ out, raised out = false) (outputs missing t closed.1) ∧
    ∀ channel message,
    ∃ b', Broadcast_publish channel message (bcast s') = Ok b' ∧
          (q ∉ subscribers (broadcaster b')) ∧
          queues (broadcaster b') !! q = queues (broadcaster (bcast s)) !! q.
Proof.
  intros s Hg closed.
  assert (Hwf : wf s) by apply wf_run, wf_sys0.
  destruct (close_retires missing g ch q s Hwf Hg) as (Hout & Hret & Hq).
  split; [exact Hout |]. intros t s'.
  assert (Hwf' : wf closed.1) by by apply wf_step.
  destruct (retired_run missing q t closed.1 Hwf' Hret) as [(Hnin & Hlt & Hfree) Hq'].
  split; [exact Hnin |]. split; [etrans; [exact Hq' | exact Hq] |].
  split.
  { eapply closed_forever, close_closes, Hg. }
  split; [by apply outputs_no_raise |].
  intros channel message. eexists. split; [reflexivity |].
  cbn [broadcaster]. split; [exact Hnin |].
  rewrite publish_queue, decide_False by exact Hnin.
  etrans; [exact Hq' | exact Hq].
Qed.

Lemma closed_subscription_leaves_the_set_witness :
  let t0 := [OpSubscribe 3 "calls"; OpNext 3; OpPublish "calls" (MsgStr "e1")] in
  gens (run [] t0 sys0) !! 3 = Some (GenSuspended "calls" 0) ∧
  (step [] (OpClose 3) (run [] t0 sys0)).2 = Closed 3 None.
Proof.
  intros t0. split; [vm_compute; reflexivity |].
  apply (closed_subscription_leaves_the_set [] t0 3 "calls" 0).
  vm_compute. reflexivity.
Defined.

(** ** Order of delivery *)

Lemma filter_middle {A} (P : A → bool) (before middle after : list A) :
  List.filter P middle =
  take (length (List.filter P middle))
    (drop (length (List.filter P before)) (List.filter P (before ++ middle ++ after))).
Proof.
  rewrite !List.filter_app, drop_app_length. by rewrite take_app_length.
Qed.

(** The elements of a run of consecutive elements of [l] that satisfy [P]
    are a run of consecutive elements of those of [l] that do. *)
Lemma filter_segment {A} (P : A → bool) n k (l : list A) :
  ∃ kc,
    List.filter P (take n (drop k l)) =
    take (length (List.filter P (take n (drop k l)))) (drop kc (List.filter P l)).
Proof.
  exists (length (List.filter P (take k l))).
  rewrite <- (take_drop k l) at 4. rewrite <- (take_drop n (drop k l)) at 3.
  apply filter_middle.
Qed.

Section Order.

Variable missing : list string.

Lemma step_keeps_subscription g o s :
  is_suspended (gens s !! g) = true →
  is_suspended (gens (step missing o s).1 !! g) = true ∨
  gens (step missing o s).1 !! g = Some GenClosed.
Proof.
  intros Hs.
  destruct (gens s !! g) as [[ch | ch q |] |] eqn:Hg; try done.
  destruct o as [| | g' channel | g' | g']; simpl; rewrite ?Hg; auto.
  - destruct (gens s !! g') eqn:Hg'; simpl; rewrite ?Hg; auto.
    rewrite lookup_insert_ne, Hg by congruence. auto.
  - destruct (gens s !! g') as [gen |] eqn:Hg'; simpl; rewrite ?Hg; auto.
    destruct (decide (g' = g)) as [-> | Hne].
    + rewrite lookup_insert_eq. simplify_eq. simpl. unfold queue_get.
      left. by destruct (queues _ !! q) as [[| ? ?] |].
    + rewrite lookup_insert_ne, Hg by done. auto.
  - destruct (gens s !! g') as [gen |] eqn:Hg'; simpl; rewrite ?Hg; auto.
    destruct (decide (g' = g)) as [-> | Hne].
    + rewrite lookup_insert_eq. simplify_eq. simpl. right.
      by destruct (set_remove q _).
    + rewrite lookup_insert_ne, Hg by done. auto.
Qed.

Lemma published_text_events o :
  webhook_or_stream o = true →
  published_text missing o = map event_text (published_events missing [o]).
Proof. by destruct o. Qed.

Lemma published_events_cons o t :
  published_events missing (o :: t) =
  (published_events missing [o] ++ published_events missing t)%list.
Proof. by destruct o. Qed.

(** While only webhooks publish, a generator inside its [try] is fed the
    dumps of the events published from now on, up to some point. *)
Lemma feed_suspended g t s :
  is_suspended (gens s !! g) = true →
  forallb webhook_or_stream t = true →
  ∃ n, feed missing g t s = map event_text (take n (published_events missing t)).
Proof.
  revert s. induction t as [| o t IH]; intros s Hs Ht.
  - by exists 0.
  - cbn [feed forallb] in *.
    apply andb_true_iff in Ht as [Ho Ht]. rewrite Hs.
    rewrite (published_text_events o Ho), (published_events_cons o t).
    assert (Hrest : ∃ n, feed missing g t (step missing o s).1 =
                         map event_text (take n (published_events missing t))).
    { destruct (step_keeps_subscription g o s Hs) as [Hs' | Hc].
      - by apply IH.
      - exists 0. by destruct (closed_forever missing g t _ Hc) as (_ & -> & _). }
    destruct Hrest as [n ->].
    exists (length (published_events missing [o]) + n).
    by rewrite take_app_add, map_app.
Qed.

(** Over a whole trace the feed of a generator is the dumps of a run of
    consecutive published events. *)
Lemma feed_segment g t s :
  forallb webhook_or_stream t = true →
  ∃ k n, feed missing g t s =
         map event_text (take n (drop k (published_events missing t))).
Proof.
  revert s. induction t as [| o t IH]; intros s Ht.
  - by exists 0, 0.
  - destruct (is_suspended (gens s !! g)) eqn:Hs.
    + destruct (feed_suspended g (o :: t) s Hs Ht) as [n ->]. by exists 0, n.
    + cbn [feed forallb] in *. rewrite Hs. apply andb_true_iff in Ht as [Ho Ht].
      destruct (IH (step missing o s).1 Ht) as (k & n & ->).
      exists (length (published_events missing [o]) + k), n.
      by rewrite (published_events_cons o t), drop_app_add.
Qed.

End Order.

(** C1, as stated, fails: the event that [/twilio/call] publishes for call
    ["c1"] has the fields [event], [call_sid] and [status], and no
    [sequence_number]. *)
Lemma call_started_event_has_no_sequence_number :
  let request := mkRequest (Some {[ "CallSid" := "c1" ]}) in
  let event := webhook_event [] Call request in
  publishes broadcast0 (handle_call request broadcast0).2 "calls" event ∧
  dict_keys event = ["event"; "call_sid"; "status"] ∧
  dict_get "sequence_number" event = None.
Proof. repeat split. Qed.

(** C1, amended: published events carry no [sequence_number].  What a
    subscriber is handed is the dumps of a run of consecutive published
    events, in the order of publication; so for every call, the events of
    that call it is handed are consecutive events of that call, in the order
    in which they were published: none out of order, none twice, none left
    out in between.  A subscriber that joins late starts later. *)
Theorem call_events_arrive_in_publication_order missing t g :
  forallb webhook_or_stream t = true →
  let published := published_events missing t in
  Forall (λ event, dict_get "sequence_number" event = None) published ∧
  ∃ events k,
    received missing g t sys0 = map event_text events ∧
    events = take (length events) (drop k published) ∧
    ∀ call_sid, ∃ kc,
      List.filter (of_call call_sid) events =
      take (length (List.filter (of_call call_sid) events))
        (drop kc (List.filter (of_call call_sid) published)).
Proof.
  intros Ht published. split.
  { subst published. clear Ht. induction t as [| o t IH]; [constructor |].
    destruct o; simpl; try done. constructor; [| done].
    apply webhook_event_no_sequence_number. }
  destruct (stream_balance missing g t sys0 wf_sys0) as (rest & Heq & _).
  destruct (feed_segment missing g t sys0 Ht) as (k & n & Hfeed).
  change (pending g sys0) with (@nil string) in Heq. simpl in Heq.
  fold published in Hfeed.
  set (m := length (received missing g t sys0)).
  assert (Hrec : received missing g t sys0 =
                 map event_text (take (m `min` n) (drop k published))).
  { rewrite <- take_take, <- firstn_map, <- Hfeed, Heq. subst m.
    by rewrite take_app_length. }
  exists (take (m `min` n) (drop k published)), k.
  split; [exact Hrec |]. split.
  - rewrite length_take.
    by rewrite <- (take_take (drop k published) (m `min` n) (length (drop k published))),
      firstn_all.
  - intros call_sid. apply filter_segment.
Qed.

Lemma call_events_arrive_in_publication_order_witness :
  let c1 := mkRequest (Some {[ "CallSid" := "c1" ]}) in
  let c2 := mkRequest (Some {[ "CallSid" := "c2" ]}) in
  let t := [OpWebhook Call c1; OpSubscribe 0 "calls"; OpNext 0;
            OpWebhook Call c2; OpWebhook Recording c1; OpWebhook Respond c1;
            OpNext 0; OpNext 0] in
  forallb webhook_or_stream t = true ∧
  received [] 0 t sys0 =
  map event_text [webhook_event [] Call c2; webhook_event [] Recording c1] ∧
  Forall (λ event, dict_get "sequence_number" event = None) (published_events [] t).
Proof.
  intros c1 c2 t. split; [reflexivity |]. split; [vm_compute; reflexivity |].
  apply (call_events_arrive_in_publication_order [] t 0). reflexivity.
Defined.

(** ** Overlapping requests to [/twilio/recording] *)

Section Overlap.

Variable missing : list string.

(** Resumed twice from its start, a task has done what the handler does. *)
Lemma resume_twice request b :
  let r1 := resume missing (AwaitingForm request) b in
  let r2 := resume missing r1.1 r1.2 in
  r2 = (Returned (handle_recording missing request b).1,
        (handle_recording missing request b).2).
Proof. reflexivity. Qed.

Lemma resume_on_track request t b :
  on_track missing request t → on_track missing request (resume missing t b).1.
Proof.
  intros [-> | [-> | ->]]; [right; left | right; right | right; right]; reflexivity.
Qed.

Lemma resume_stage t b : stage (resume missing t b).1 = (stage t `min` 1 + 1)%nat.
Proof. by destruct t. Qed.

Lemma schedule_step_ok request_a request_b b p who :
  pool_ok missing request_a request_b b p →
  pool_ok missing request_a request_b b (schedule_step missing p who).
Proof.
  intros (Ha & Hb & Hs). destruct p as [ta tb sh]. simpl in *.
  unfold pool_ok, settled in *.
  destruct who; simpl.
  - split; [by apply resume_on_track |]. split; [done |].
    destruct Ha as [-> | [-> | ->]], Hb as [-> | [-> | ->]]; simpl in *;
      subst; auto.
  - split; [done |]. split; [by apply resume_on_track |].
    destruct Ha as [-> | [-> | ->]], Hb as [-> | [-> | ->]]; simpl in *;
      subst; auto.
Qed.

Lemma run_schedule_ok request_a request_b b schedule p :
  pool_ok missing request_a request_b b p →
  pool_ok missing request_a request_b b (run_schedule missing schedule p).
Proof.
  revert p. induction schedule as [| who schedule IH]; intros p Hp; [done |].
  apply IH. by apply schedule_step_ok.
Qed.

Lemma run_schedule_stage (schedule : list turn) (p : pool) :
  (2 ≤ stage (run_a p) + turns_of_a schedule)%nat →
  stage (run_a (run_schedule missing schedule p)) = 2.
Proof.
  revert p. induction schedule as [| who schedule IH]; intros p Hp; simpl in *.
  - destruct (run_a p); simpl in *; lia.
  - apply IH. destruct who; simpl; [| done].
    rewrite resume_stage. lia.
Qed.

Lemma run_schedule_stage_b (schedule : list turn) (p : pool) :
  (2 ≤ stage (run_b p) + turns_of_b schedule)%nat →
  stage (run_b (run_schedule missing schedule p)) = 2.
Proof.
  revert p. induction schedule as [| who schedule IH]; intros p Hp; simpl in *.
  - destruct (run_b p); simpl in *; lia.
  - apply IH. destruct who; simpl; [done |].
    rewrite resume_stage. lia.
Qed.

End Overlap.

(** C2, as stated, fails: a second request for call ["c1"] arrives and is
    handled while the first is between its two [await]s; it is answered
    with status 200, the first is not cancelled and is answered with status
    200 as well, and a subscriber is handed the events of both runs. *)
Lemma overlapping_recordings_are_neither_rejected_nor_cancelled :
  let request_a :=
    mkRequest (Some {[ "CallSid" := "c1"; "RecordingSid" := "RA" ]}) in
  let request_b :=
    mkRequest (Some {[ "CallSid" := "c1"; "RecordingSid" := "RB" ]}) in
  let b := set_broadcaster (anext (subscribe "transcripts") MockBroadcaster_init).1.2
             broadcast0 in
  let start := launch request_a request_b b in
  let p := run_schedule [] [TurnA; TurnB; TurnB; TurnA] start in
  in_flight (run_a (run_schedule [] [TurnA] start)) = true ∧
  in_flight (run_a (run_schedule [] [TurnA; TurnB; TurnB] start)) = true ∧
  (is_2xx ∘ status_code) <$> response_of (run_b p) = Some true ∧
  (is_2xx ∘ status_code) <$> response_of (run_a p) = Some true ∧
  queues (broadcaster (shared p)) !! 0 =
  Some [event_text (webhook_event [] Recording request_b);
        event_text (webhook_event [] Recording request_a)].
Proof. vm_compute. repeat split. Qed.

(** C2, amended: the handler of [/twilio/recording] keeps no record of
    calls in flight.  Under every interleaving of two requests at their
    [await]s, whether for the same call or not, no request is rejected and
    none is cancelled: a task that has had its two turns has returned, every
    response is the 200 response the handler gives that request when it
    runs alone, and once both have returned the broadcaster has seen both
    events, each whole, in one order or the other. *)
Theorem overlapping_recordings_both_complete missing request_a request_b b schedule :
  let p := run_schedule missing schedule (launch request_a request_b b) in
  ((2 ≤ turns_of_a schedule)%nat → in_flight (run_a p) = false) ∧
  ((2 ≤ turns_of_b schedule)%nat → in_flight (run_b p) = false) ∧
  (∀ r, response_of (run_a p) = Some r →
        r = (handle_recording missing request_a b).1 ∧ status_code r = 200) ∧
  (∀ r, response_of (run_b p) = Some r →
        r = (handle_recording missing request_b b).1 ∧ status_code r = 200) ∧
  (in_flight (run_a p) = false → in_flight (run_b p) = false →
   shared p =
   (handle_recording missing request_b (handle_recording missing request_a b).2).2 ∨
   shared p =
   (handle_recording missing request_a (handle_recording missing request_b b).2).2).
Proof.
  intros p.
  assert (Hok : pool_ok missing request_a request_b b p).
  { apply run_schedule_ok. repeat split; by left. }
  destruct Hok as (Ha & Hb & Hs).
  split; [| split; [| split; [| split]]].
  - intros Hturns.
    pose proof (run_schedule_stage missing schedule (launch request_a request_b b)) as H.
    fold p in H. destruct (run_a p); simpl in *; try done; lia.
  - intros Hturns.
    pose proof (run_schedule_stage_b missing schedule (launch request_a request_b b)) as H.
    fold p in H. destruct (run_b p); simpl in *; try done; lia.
  - intros r Hr. destruct Ha as [Ha | [Ha | Ha]]; rewrite Ha in Hr;
      simpl in Hr; [done | done |]. by injection Hr as <-.
  - intros r Hr. destruct Hb as [Hb | [Hb | Hb]]; rewrite Hb in Hr;
      simpl in Hr; [done | done |]. by injection Hr as <-.
  - intros Hfa Hfb. unfold settled in Hs. by rewrite Hfa, Hfb in Hs.
Qed.

Lemma overlapping_recordings_both_complete_witness :
  let request_a :=
    mkRequest (Some {[ "CallSid" := "c1"; "RecordingSid" := "RA" ]}) in
  let request_b :=
    mkRequest (Some {[ "CallSid" := "c1"; "RecordingSid" := "RB" ]}) in
  let schedule := [TurnA; TurnB; TurnB; TurnA] in
  (2 ≤ turns_of_a schedule)%nat ∧
  in_flight (run_a (run_schedule [] schedule (launch request_a request_b broadcast0)))
  = false.
Proof.
  intros request_a request_b schedule. split; [simpl; lia |].
  apply (overlapping_recordings_both_complete [] request_a request_b broadcast0 schedule).
  simpl. lia.
Defined.

(** ** The dashboard endpoint *)

(** C4: on a connection to [/ws] the first [async with] raises, because
    [broadcast.subscribe(...)] is a coroutine object; the [except] clause
    logs the error and the endpoint returns.  The connection is subscribed
    to no channel, and whatever the webhooks publish afterwards, no frame is
    sent on it. *)
Theorem websocket_endpoint_forwards_nothing missing websocket b hooks :
  let connected := websocket_endpoint websocket b in
  let served := serve missing hooks connected.2 connected.1 b in
  connected.2 = WsReturned (Some TypeError) ∧
  accepted connected.1 = true ∧
  sent served.1.2 = sent websocket ∧
  served.1.1 = WsReturned (Some TypeError) ∧
  subscribers (broadcaster served.2) = subscribers (broadcaster b).
Proof.
  intros connected served. subst connected served. simpl.
  split; [done |]. split; [done |].
  set (ws := accept websocket). change (sent websocket) with (sent ws).
  generalize ws. clear ws. revert b.
  induction hooks as [| [w request] hooks IH]; intros b ws; simpl; [done |].
  destruct (IH (handler missing w request b).2 ws) as (Hsent & Hst & Hsubs).
  split; [done |]. split; [done |]. rewrite Hsubs.
  by rewrite (handler_publishes missing w request b).
Qed.

(** C4 at one input: a dashboard connects, then a recording webhook for
    call ["c1"] is handled; the event is published on [transcripts] and the
    dashboard is sent nothing. *)
Lemma dashboard_misses_transcript_event :
  let request := mkRequest (Some {[ "CallSid" := "c1" ]}) in
  let connected := websocket_endpoint (mkWebSocket false []) broadcast0 in
  let served := serve [] [(Recording, request)] connected.2 connected.1 broadcast0 in
  publishes broadcast0 served.2 "transcripts" (webhook_event [] Recording request) ∧
  sent served.1.2 = [].
Proof. split; reflexivity. Qed.

(** ** Start-up and [/health] *)

Lemma scan_missing_from importable (packages missing : list string) :
  foldl (fun missing package =>
           if importable package : bool then missing else (missing ++ [package])%list)
    missing packages =
  (missing ++ List.filter (fun package => negb (importable package)) packages)%list.
Proof.
  revert missing. induction packages as [| p packages IH]; intros missing; simpl.
  - by rewrite app_nil_r.
  - rewrite IH. destruct (importable p); simpl; [done |]. by rewrite <- app_assoc.
Qed.

Lemma scan_missing_filter importable packages :
  scan_missing importable packages =
  List.filter (fun package => negb (importable package)) packages.
Proof. unfold scan_missing. by rewrite scan_missing_from. Qed.

Lemma elem_of_scan_missing importable packages p :
  p ∈ scan_missing importable packages ↔ p ∈ packages ∧ importable p = false.
Proof.
  rewrite scan_missing_filter, !list_elem_of_In, filter_In.
  by rewrite negb_true_iff.
Qed.

Lemma optional_packages_NoDup : NoDup optional_packages.
Proof.
  apply (bool_decide_unpack _). by vm_compute.
Qed.

Lemma required_all_importable importable :
  scan_missing importable required_packages = [] ↔
  importable "fastapi" = true ∧ importable "uvicorn" = true.
Proof.
  unfold scan_missing, required_packages. simpl.
  destruct (importable "fastapi"), (importable "uvicorn"); simpl; naive_solver.
Qed.

(** X1: the module loads exactly when [fastapi] and [uvicorn] can both be
    imported, and exits with status 1 otherwise; when it loads,
    [missing_optional] holds the optional packages that cannot be imported,
    in the order of their declaration and each once, and nothing else. *)
Theorem load_module_missing_optional importable :
  (load_module importable = Exited 1 ↔
   importable "fastapi" = false ∨ importable "uvicorn" = false) ∧
  ∀ missing_optional,
    load_module importable = Loaded missing_optional →
    importable "fastapi" = true ∧ importable "uvicorn" = true ∧
    missing_optional =
    List.filter (fun package => negb (importable package)) optional_packages ∧
    NoDup missing_optional ∧
    ∀ p, p ∈ missing_optional ↔ p ∈ optional_packages ∧ importable p = false.
Proof.
  pose proof (required_all_importable importable) as Hreq.
  unfold load_module.
  destruct (scan_missing importable required_packages) as [| p rest]; split.
  - split; [done |]. intros Hmiss. destruct Hreq as [Hreq _].
    destruct (Hreq eq_refl) as [Hf Hu]. rewrite Hf, Hu in Hmiss. naive_solver.
  - intros mo [= <-]. destruct Hreq as [Hreq _].
    destruct (Hreq eq_refl) as [Hf Hu]. split; [done |]. split; [done |].
    split; [apply scan_missing_filter |]. split.
    + rewrite scan_missing_filter.
      apply NoDup_ListNoDup, List.NoDup_filter, NoDup_ListNoDup, optional_packages_NoDup.
    + intros q. apply elem_of_scan_missing.
  - split; [| done]. intros _.
    destruct (importable "fastapi"), (importable "uvicorn"); auto.
    destruct Hreq as [_ Hreq]. by specialize (Hreq (conj eq_refl eq_refl)).
  - intros mo Hmo. done.
Qed.

Lemma load_module_missing_optional_witness :
  let importable := fun p => bool_decide (p ∈ ["fastapi"; "uvicorn"; "pydantic"; "hume"]) in
  load_module importable =
  Loaded ["python-dotenv"; "twilio"; "broadcaster"; "torch"; "transformers"; "peft";
          "openai-whisper"; "retell"] ∧
  importable "fastapi" = true.
Proof.
  intros importable. split; [vm_compute; reflexivity |].
  eapply (proj2 (load_module_missing_optional importable)). vm_compute. reflexivity.
Defined.

Lemma in_missing_optional importable missing_optional p :
  load_module importable = Loaded missing_optional →
  p ∈ optional_packages →
  (p ∈ missing_optional ↔ importable p = false).
Proof.
  unfold load_module. intros Hload Hp.
  destruct (scan_missing importable required_packages); [| done].
  injection Hload as <-. rewrite elem_of_scan_missing. naive_solver.
Qed.

(** X2: once the module has loaded, [/health] says [mock] for a service
    exactly when a package of that service could not be imported, and that
    is exactly when the service singleton is a mock object; when it says
    [ready] the singleton is [None]. *)
Theorem health_reports_the_mocked_services importable missing_optional env :
  load_module importable = Loaded missing_optional →
  let h := health_check missing_optional env in
  status_code h = 200 ∧
  body_field "services" "asr" h =
    Some (JStr (if importable "openai-whisper" then "ready" else "mock")) ∧
  asr_service missing_optional =
    (if importable "openai-whisper" then None else Some MockASR_init) ∧
  body_field "services" "llm" h =
    Some (JStr (if importable "transformers" && importable "torch"
                then "ready" else "mock")) ∧
  llm_service missing_optional =
    (if importable "transformers" && importable "torch"
     then None else Some MockLLM_init) ∧
  body_field "services" "emotion" h =
    Some (JStr (if importable "hume" then "ready" else "mock")) ∧
  emotion_service missing_optional =
    (if importable "hume" then None else Some MockEmotionAnalysis_init) ∧
  body_field "services" "api" h = Some (JStr "ready").
Proof.
  intros Hload h.
  assert (Hin : ∀ p, p ∈ optional_packages →
                     (p ∈ missing_optional ↔ importable p = false))
    by (intros p; by apply in_missing_optional).
  assert (Hw := Hin "openai-whisper"). assert (Ht := Hin "transformers").
  assert (Hto := Hin "torch"). assert (Hh := Hin "hume").
  unfold optional_packages in Hw, Ht, Hto, Hh.
  rewrite !elem_of_cons in Hw, Ht, Hto, Hh.
  specialize (Hw ltac:(tauto)). specialize (Ht ltac:(tauto)).
  specialize (Hto ltac:(tauto)). specialize (Hh ltac:(tauto)).
  subst h. unfold body_field, health_check, asr_service, llm_service, emotion_service.
  cbn [body status_code]. split; [done |].
  destruct (importable "openai-whisper"), (importable "transformers"),
    (importable "torch"), (importable "hume");
    repeat case_decide; simpl; try naive_solver.
Qed.

Lemma health_reports_the_mocked_services_witness :
  let importable := fun p => bool_decide (p ∈ ["fastapi"; "uvicorn"; "hume"]) in
  let missing_optional :=
    ["python-dotenv"; "twilio"; "broadcaster"; "pydantic"; "torch"; "transformers";
     "peft"; "openai-whisper"; "retell"] in
  load_module importable = Loaded missing_optional ∧
  status_code (health_check missing_optional ∅) = 200.
Proof.
  intros importable missing_optional. split; [vm_compute; reflexivity |].
  apply (health_reports_the_mocked_services importable missing_optional ∅).
  vm_compute. reflexivity.
Defined.

(** X3: [/health] says that Twilio is [configured] exactly when both
    [TWILIO_ACCOUNT_SID] and [TWILIO_AUTH_TOKEN] are set to non-empty
    values, and [missing] otherwise (an empty value counts as unset);
    [model_path] is the value of [MODEL_PATH] whenever the variable is set,
    also when it is empty, and [not set] only when it is unset. *)
Theorem health_environment missing_optional env :
  let h := health_check missing_optional env in
  (body_field "environment" "twilio" h = Some (JStr "configured") ↔
   ∃ sid token,
     env !! "TWILIO_ACCOUNT_SID" = Some sid ∧ sid ≠ "" ∧
     env !! "TWILIO_AUTH_TOKEN" = Some token ∧ token ≠ "") ∧
  (body_field "environment" "twilio" h = Some (JStr "configured") ∨
   body_field "environment" "twilio" h = Some (JStr "missing")) ∧
  (∀ value, env !! "MODEL_PATH" = Some value →
            body_field "environment" "model_path" h = Some (JStr value)) ∧
  (env !! "MODEL_PATH" = None →
   body_field "environment" "model_path" h = Some (JStr "not set")).
Proof.
  intros h. subst h. unfold body_field, health_check. cbn [body].
  unfold getenv_truthy, getenv_default. simpl.
  split; [| split; [| split]].
  - destruct (env !! "TWILIO_ACCOUNT_SID") as [sid |],
      (env !! "TWILIO_AUTH_TOKEN") as [token |];
      repeat case_decide; simpl; split; try done; try naive_solver.
  - destruct (env !! "TWILIO_ACCOUNT_SID") as [sid |],
      (env !! "TWILIO_AUTH_TOKEN") as [token |];
      repeat case_decide; simpl; auto.
  - by intros value ->.
  - by intros ->.
Qed.

(** ** The subscriber set *)

Section Tracked.

Variable missing : list string.

Lemma tracked_step o s : wf s → tracked s → tracked (step missing o s).1.
Proof.
  intros [Hown Hinj] Htr.
  destruct (decide (published_text missing o = [])) as [Hnil | Hpub].
  2: { destruct (step_publisher missing o s Hpub) as (channel & message & _ & -> & _).
       exact Htr. }
  destruct o as [| | g channel | g | g]; simpl in Hnil; try done; simpl.
  - destruct (gens s !! g) eqn:Hg; simpl; [done |].
    intros q Hq. destruct (Htr q Hq) as (g' & ch & Hg').
    exists g', ch. simpl. rewrite lookup_insert_ne; [done | congruence].
  - destruct (gens s !! g) as [gen |] eqn:Hg; simpl; [| done].
    destruct gen as [ch | ch q |]; simpl.
    + unfold queue_get. simpl. rewrite lookup_insert_eq. simpl.
      intros q' Hq'. simpl in Hq'. apply elem_of_union in Hq' as [Hq' | Hq'].
      * apply elem_of_singleton in Hq' as ->. exists g, ch. simpl.
        by rewrite lookup_insert_eq.
      * destruct (Htr q' Hq') as (g' & ch' & Hg'). exists g', ch'. simpl.
        rewrite lookup_insert_ne; [done | congruence].
    + assert (Hkeep : ∀ q', q' ∈ subscribers (broadcaster (bcast s)) →
                ∃ g' ch', <[g := GenSuspended ch q]> (gens s) !! g' =
                          Some (GenSuspended ch' q')).
      { intros q' Hq'. destruct (Htr q' Hq') as (g' & ch' & Hg').
        exists g', ch'. destruct (decide (g = g')) as [<- | Hne].
        - rewrite lookup_insert_eq. congruence.
        - by rewrite lookup_insert_ne. }
      unfold queue_get.
      by destruct (queues (broadcaster (bcast s)) !! q) as [[| m rest] |].
    + intros q Hq. destruct (Htr q Hq) as (g' & ch & Hg').
      exists g', ch. simpl. rewrite lookup_insert_ne; [done | congruence].
  - destruct (gens s !! g) as [gen |] eqn:Hg; simpl; [| done].
    destruct gen as [ch | ch q |]; simpl.
    + intros q Hq. destruct (Htr q Hq) as (g' & ch' & Hg').
      exists g', ch'. simpl. rewrite lookup_insert_ne; [done | congruence].
    + destruct (Hown g ch q Hg) as (Hin & _ & _).
      unfold set_remove. rewrite decide_True by done. simpl.
      intros q' Hq'. simpl in Hq'. apply elem_of_difference in Hq' as [Hq' Hne].
      destruct (Htr q' Hq') as (g' & ch' & Hg'). exists g', ch'. simpl.
      rewrite lookup_insert_ne; [done |]. intros <-. simplify_eq. set_solver.
    + intros q Hq. destruct (Htr q Hq) as (g' & ch' & Hg').
      exists g', ch'. simpl. rewrite lookup_insert_ne; [done | congruence].
Qed.

Lemma tracked_run t s : wf s → tracked s → tracked (run missing t s).
Proof.
  revert s. induction t as [| o t IH]; intros s Hwf Htr; simpl; [done |].
  by apply IH; [apply wf_step | apply tracked_step].
Qed.

End Tracked.

(** X4: no subscription is leaked and none is lost: in every state the
    system can reach, the subscriber set holds exactly the queues of the
    generators that are inside their [try], and each such queue belongs to
    one generator only. *)
Theorem subscriber_set_is_the_live_subscriptions missing t q :
  let s := run missing t sys0 in
  (q ∈ subscribers (broadcaster (bcast s)) ↔
   ∃ g ch, gens s !! g = Some (GenSuspended ch q)) ∧
  ∀ g1 g2 ch1 ch2,
    gens s !! g1 = Some (GenSuspended ch1 q) →
    gens s !! g2 = Some (GenSuspended ch2 q) → g1 = g2.
Proof.
  intros s.
  assert (Hwf : wf s) by apply wf_run, wf_sys0.
  assert (Htr : tracked s).
  { apply tracked_run; [apply wf_sys0 |]. intros q' Hq'. simpl in Hq'. set_solver. }
  destruct Hwf as [Hown Hinj]. split.
  - split; [apply Htr |]. intros (g & ch & Hg). by destruct (Hown g ch q Hg).
  - intros g1 g2 ch1 ch2. apply Hinj.
Qed.

Lemma subscriber_set_is_the_live_subscriptions_witness :
  let t := [OpSubscribe 1 "calls"; OpNext 1; OpSubscribe 2 "responses"; OpNext 2;
            OpClose 1] in
  subscribers (broadcaster (bcast (run [] t sys0))) = {[ 1 ]} ∧
  gens (run [] t sys0) !! 2 = Some (GenSuspended "responses" 1) ∧
  (1 ∈ subscribers (broadcaster (bcast (run [] t sys0))) ↔
   ∃ g ch, gens (run [] t sys0) !! g = Some (GenSuspended ch 1)).
Proof.
  intros t. split; [by vm_compute |]. split; [by vm_compute |].
  apply (subscriber_set_is_the_live_subscriptions [] t 1).
Defined.

Lemma publish_without_subscribers channel message b :
  subscribers b = ∅ → publish channel message b = b.
Proof.
  intros Hs. unfold publish. rewrite Hs, elements_empty. simpl.
  destruct b as [subs qs nxt]. simpl in *. by rewrite Hs.
Qed.

(** X5: events are not kept for later: while the subscriber set is empty,
    every [publish] and every webhook leaves the broadcaster exactly as it
    was, so a dashboard that subscribes afterwards finds an empty queue. *)
Theorem events_without_subscribers_are_dropped missing t s :
  subscribers (broadcaster (bcast s)) = ∅ →
  forallb is_publisher t = true →
  run missing t s = s ∧
  ∀ g channel,
    gens s !! g = None →
    pending g (run missing (t ++ [OpSubscribe g channel; OpNext g]) s) = [] ∧
    received missing g (t ++ [OpSubscribe g channel; OpNext g; OpNext g]) s = [].
Proof.
  intros Hs Ht.
  assert (Hrun : run missing t s = s).
  { induction t as [| o t IH]; [done |]. simpl in Ht.
    apply andb_true_iff in Ht as [Ho Ht]. simpl.
    assert (Hstep : (step missing o s).1 = s).
    { destruct (step_publisher missing o s) as (ch & m & _ & Heq & _).
      { by destruct o. }
      rewrite Heq, publish_without_subscribers by done.
      by destruct s as [[u b] gs]. }
    rewrite Hstep. by apply IH. }
  split; [exact Hrun |]. intros g channel Hg.
  assert (Hrec : received missing g t s = []).
  { clear Hrun. revert Ht. generalize s. induction t as [| o t IH]; intros s' Ht;
      [done |]. simpl in Ht. apply andb_true_iff in Ht as [Ho Ht]. simpl.
    rewrite IH by done. by destruct o. }
  unfold pending. rewrite received_app, Hrec. clear Hrec.
  replace (run missing (t ++ [OpSubscribe g channel; OpNext g]) s)
    with (run missing [OpSubscribe g channel; OpNext g] (run missing t s)).
  2: { clear. revert s. induction t as [| o t IH]; intros s; [done |]. apply IH. }
  rewrite Hrun. simpl. rewrite Hg. simpl. rewrite !lookup_insert_eq. simpl.
  unfold queue_get. simpl. rewrite !lookup_insert_eq. simpl.
  split; [by rewrite lookup_insert_eq |].
  unfold queue_get. simpl. by rewrite lookup_insert_eq.
Qed.

Lemma events_without_subscribers_are_dropped_witness :
  let t := [OpWebhook Call (mkRequest (Some {[ "CallSid" := "c1" ]}));
            OpPublish "responses" (MsgStr "e")] in
  subscribers (broadcaster (bcast sys0)) = ∅ ∧
  forallb is_publisher t = true ∧
  run [] t sys0 = sys0.
Proof.
  intros t. split; [reflexivity |]. split; [reflexivity |].
  apply (events_without_subscribers_are_dropped [] t sys0); reflexivity.
Defined.

(** ** Consumers next to each other *)

Section Consumers.

Variable missing : list string.

(** A turn that is not the consumer's own read or close leaves its
    generator inside its [try] and hands it nothing. *)
Lemma left_alone_step g o s :
  is_suspended (gens s !! g) = true →
  leaves_alone g o = true →
  is_suspended (gens (step missing o s).1 !! g) = true ∧
  yielded g (step missing o s).2 = [].
Proof.
  intros Hs Ho.
  destruct (gens s !! g) as [[ch | ch q |] |] eqn:Hg; try done.
  destruct o as [| | g' channel | g' | g']; simpl in *; rewrite ?Hg; try done.
  - destruct (gens s !! g') eqn:Hg'; simpl; rewrite ?Hg; [done |].
    rewrite lookup_insert_ne, Hg by congruence. done.
  - apply negb_true_iff, bool_decide_eq_false in Ho.
    destruct (gens s !! g') as [gen |] eqn:Hg'; simpl; rewrite ?Hg; [| done].
    rewrite lookup_insert_ne, Hg by done. split; [done |].
    destruct (anext gen _).2; simpl; try done; by rewrite decide_False.
  - apply negb_true_iff, bool_decide_eq_false in Ho.
    destruct (gens s !! g') as [gen |] eqn:Hg'; simpl; rewrite ?Hg; [| done].
    by rewrite lookup_insert_ne, Hg by done.
Qed.

Lemma left_alone_run g t s :
  is_suspended (gens s !! g) = true →
  forallb (leaves_alone g) t = true →
  is_suspended (gens (run missing t s) !! g) = true ∧
  received missing g t s = [] ∧
  feed missing g t s = concat (map (published_text missing) t).
Proof.
  revert s. induction t as [| o t IH]; intros s Hs Ht; simpl in *; [done |].
  apply andb_true_iff in Ht as [Ho Ht].
  destruct (left_alone_step g o s Hs Ho) as [Hs' ->].
  destruct (IH _ Hs' Ht) as (Hfin & -> & ->). by rewrite Hs.
Qed.

(** What another consumer does with its own generator touches neither the
    generator nor the queue of [g]. *)
Lemma other_consumer_step g1 g o s :
  wf s → g1 ≠ g → consumer_op g1 o = true →
  gens (step missing o s).1 !! g = gens s !! g ∧
  pending g (step missing o s).1 = pending g s ∧
  yielded g (step missing o s).2 = [].
Proof.
  intros Hwf Hne Ho.
  assert (Hy : yielded g (step missing o s).2 = []).
  { destruct o as [| | g' channel | g' | g']; simpl in *; try done;
      apply bool_decide_eq_true in Ho as ->.
    - by destruct (gens s !! g1).
    - destruct (gens s !! g1) as [gen |]; simpl; [| done].
      destruct (anext gen _).2; simpl; try done; by rewrite decide_False.
    - by destruct (gens s !! g1). }
  assert (Hg : gens (step missing o s).1 !! g = gens s !! g).
  { destruct o as [| | g' channel | g' | g']; simpl in *; try done;
      apply bool_decide_eq_true in Ho as ->;
      destruct (gens s !! g1); simpl; try done; by rewrite lookup_insert_ne. }
  split; [exact Hg |]. split; [| exact Hy].
  pose proof (step_balance missing g o s Hwf) as Hbal.
  rewrite Hy in Hbal. simpl in Hbal. rewrite <- Hbal.
  - assert (Hpub : published_text missing o = []) by by destruct o.
    rewrite Hpub. destruct (is_suspended _); by rewrite app_nil_r.
  - intros ->. simpl in Ho. apply bool_decide_eq_true in Ho. done.
Qed.

End Consumers.

(** X6: the queue of a subscriber has no bound and drops nothing: while
    its consumer neither reads nor closes, the generator stays subscribed
    and every text that is published, on whatever channel, is appended to
    what already waits, in order. *)
Theorem idle_subscriber_queue_keeps_everything missing t0 t g :
  let s := run missing t0 sys0 in
  is_suspended (gens s !! g) = true →
  forallb (leaves_alone g) t = true →
  is_suspended (gens (run missing t s) !! g) = true ∧
  pending g (run missing t s) =
  (pending g s ++ concat (map (published_text missing) t))%list.
Proof.
  intros s Hs Ht.
  assert (Hwf : wf s) by apply wf_run, wf_sys0.
  destruct (left_alone_run missing g t s Hs Ht) as (Hfin & Hrec & Hfeed).
  split; [exact Hfin |].
  destruct (stream_balance missing g t s Hwf) as (rest & Heq & Hrest).
  rewrite Hrec, Hfeed in Heq. simpl in Heq. rewrite <- (Hrest Hfin). by symmetry.
Qed.

Lemma idle_subscriber_queue_keeps_everything_witness :
  let t0 := [OpSubscribe 0 "calls"; OpNext 0; OpPublish "calls" (MsgStr "e1")] in
  let t := [OpPublish "calls" (MsgStr "e2"); OpSubscribe 1 "calls"; OpNext 1;
            OpPublish "transcripts" (MsgStr "e3"); OpNext 1; OpClose 1] in
  is_suspended (gens (run [] t0 sys0) !! 0) = true ∧
  forallb (leaves_alone 0) t = true ∧
  pending 0 (run [] t (run [] t0 sys0)) = ["e1"; "e2"; "e3"] ∧
  is_suspended (gens (run [] t (run [] t0 sys0)) !! 0) = true.
Proof.
  intros t0 t. split; [by vm_compute |]. split; [by vm_compute |].
  split; [by vm_compute |].
  apply (idle_subscriber_queue_keeps_everything [] t0 t 0); by vm_compute.
Defined.

(** X7: consumers do not disturb each other: whatever one consumer does
    with its own generator (create it, read from it, close it), the
    generator of another consumer stays as it is, the events waiting for
    the other consumer stay the same, and the other consumer is handed
    nothing out of turn. *)
Theorem consumers_are_isolated missing t0 t g1 g :
  let s := run missing t0 sys0 in
  g1 ≠ g →
  forallb (consumer_op g1) t = true →
  gens (run missing t s) !! g = gens s !! g ∧
  pending g (run missing t s) = pending g s ∧
  received missing g t s = [].
Proof.
  intros s Hne Ht.
  assert (Hwf : wf s) by apply wf_run, wf_sys0.
  clearbody s. clear t0. revert s Hwf.
  induction t as [| o t IH]; intros s Hwf; simpl in *; [done |].
  apply andb_true_iff in Ht as [Ho Ht].
  destruct (other_consumer_step missing g1 g o s Hwf Hne Ho) as (Hg & Hp & ->).
  destruct (IH Ht _ (wf_step missing o s Hwf)) as (Hg' & Hp' & ->).
  by rewrite Hg', Hp', Hg, Hp.
Qed.

Lemma consumers_are_isolated_witness :
  let t0 := [OpSubscribe 0 "calls"; OpNext 0; OpSubscribe 1 "calls"; OpNext 1;
             OpPublish "calls" (MsgStr "e1"); OpPublish "calls" (MsgStr "e2")] in
  let t := [OpNext 1; OpNext 1; OpNext 1; OpClose 1; OpClose 1] in
  received [] 1 t (run [] t0 sys0) = ["e1"; "e2"] ∧
  pending 0 (run [] t (run [] t0 sys0)) = ["e1"; "e2"] ∧
  pending 0 (run [] t (run [] t0 sys0)) = pending 0 (run [] t0 sys0).
Proof.
  intros t0 t. split; [by vm_compute |]. split; [by vm_compute |].
  apply (consumers_are_isolated [] t0 t 1 0); [lia | by vm_compute].
Defined.

(** ** What the handlers answer *)

(** X8: for every request whose form fields are text, whichever services
    are mocked and whichever broadcaster the application runs with, also
    one whose [publish] raises, each webhook handler answers with status
    200 and a body that has exactly the fields of the response model
    declared for it ([CallResponse], [RecordingResponse],
    [TriageResponse]), in the declared order and with values of the
    declared types. *)
Theorem responses_conform_to_their_models missing w request b :
  status_code (handler missing w request b).1 = 200 ∧
  (∃ fields,
     body (handler missing w request b).1 = JObj fields ∧
     conforms (response_model w) fields = true) ∧
  (∀ B (broadcast_publish : string → pymsg → B → result B) (broadcast : B),
     (handler_on broadcast_publish missing w request broadcast).1 =
     (handler missing w request b).1) ∧
  ∃ fields,
    body (handler_on failing_publish missing w request ()).1 = JObj fields ∧
    conforms (response_model w) fields = true.
Proof.
  split; [apply handler_status |].
  assert (Hbody : ∃ fields,
            body (handler missing w request b).1 = JObj fields ∧
            conforms (response_model w) fields = true).
  { destruct w; simpl; eexists; (split; [reflexivity |]); case_services; reflexivity. }
  split; [exact Hbody |]. split.
  - intros B p x. rewrite handler_on_publishes. by destruct w.
  - rewrite handler_on_publishes. cbn [fst].
    destruct Hbody as (fields & Hb & Hc). exists fields. split; [| done].
    rewrite <- Hb. by destruct w.
Qed.

(** X9: a [CallSid] that is present in the form is passed on as it is,
    also when it is the empty string: it is the [call_sid] of the response
    body and of the published event; the default is taken for an absent
    field only. *)
Theorem present_CallSid_is_passed_on missing w request b v :
  request_form request !! "CallSid" = Some v →
  (∃ fields, body (handler missing w request b).1 = JObj fields ∧
             dict_get "call_sid" fields = Some (JStr v)) ∧
  ∃ event, publishes b (handler missing w request b).2 (webhook_channel w) event ∧
           dict_get "call_sid" event = Some (JStr v).
Proof.
  intros Hv. split.
  - destruct w; simpl; unfold form_get; rewrite Hv; eexists; split;
      try reflexivity.
    case_services; reflexivity.
  - exists (webhook_event missing w request).
    split; [apply handler_publishes |].
    rewrite webhook_event_call_sid. unfold form_get. by rewrite Hv.
Qed.

Lemma present_CallSid_is_passed_on_witness :
  let request := mkRequest (Some {[ "CallSid" := "" ]}) in
  request_form request !! "CallSid" = Some "" ∧
  ∃ fields, body (handler [] Call request broadcast0).1 = JObj fields ∧
            dict_get "call_sid" fields = Some (JStr "").
Proof.
  intros request. split; [reflexivity |].
  apply (present_CallSid_is_passed_on [] Call request broadcast0 "").
  reflexivity.
Defined.

Lemma triage_ignores_transcript missing transcript1 transcript2 :
  triage missing transcript1 = triage missing transcript2.
Proof. case_services; reflexivity. Qed.

Lemma service_emotions_ignores_transcript missing transcript1 transcript2 :
  service_emotions missing transcript1 = service_emotions missing transcript2.
Proof. case_services; reflexivity. Qed.

Lemma recording_transcript_ignores_url missing url1 url2 :
  recording_transcript missing url1 = recording_transcript missing url2.
Proof. case_services; reflexivity. Qed.

(** X10: the triage answer is canned: the response of [/twilio/response]
    and the event it publishes are the same for any two requests with the
    same [CallSid], whatever their [Transcript] fields say and whichever
    services are mocked. *)
Theorem triage_does_not_read_the_transcript missing request1 request2 b1 b2 :
  request_form request1 !! "CallSid" = request_form request2 !! "CallSid" →
  (handle_response missing request1 b1).1 = (handle_response missing request2 b2).1 ∧
  webhook_event missing Respond request1 = webhook_event missing Respond request2 ∧
  publishes b2 (handle_response missing request2 b2).2 "responses"
    (webhook_event missing Respond request1).
Proof.
  intros Hc.
  assert (Hsid : form_get (request_form request1) "CallSid" "test-call-sid" =
                 form_get (request_form request2) "CallSid" "test-call-sid")
    by (unfold form_get; by rewrite Hc).
  assert (Hev : webhook_event missing Respond request1 =
                webhook_event missing Respond request2).
  { unfold webhook_event. rewrite Hsid.
    by rewrite (triage_ignores_transcript missing _
                  (form_get (request_form request2) "Transcript" "Mock transcript")),
      (service_emotions_ignores_transcript missing _
         (form_get (request_form request2) "Transcript" "Mock transcript")). }
  split; [| split; [exact Hev |]].
  - unfold handle_response, handle_response_on. cbn [fst]. rewrite Hsid.
    by rewrite (triage_ignores_transcript missing _
                  (form_get (request_form request2) "Transcript" "Mock transcript")),
      (service_emotions_ignores_transcript missing _
         (form_get (request_form request2) "Transcript" "Mock transcript")).
  - rewrite Hev. apply (handler_publishes missing Respond).
Qed.

Lemma triage_does_not_read_the_transcript_witness :
  let request1 :=
    mkRequest (Some {[ "CallSid" := "c1"; "Transcript" := "my house is on fire" ]}) in
  let request2 :=
    mkRequest (Some {[ "CallSid" := "c1"; "Transcript" := "wrong number, sorry" ]}) in
  (handle_response [] request1 broadcast0).1 = (handle_response [] request2 broadcast0).1.
Proof.
  intros request1 request2.
  apply (triage_does_not_read_the_transcript [] request1 request2 broadcast0 broadcast0).
  reflexivity.
Defined.

(** X11: the recording is never looked at: the response of
    [/twilio/recording] and the event it publishes are the same for any two
    requests with the same [CallSid] and [RecordingSid], whatever their
    [RecordingUrl] fields say and whichever services are mocked. *)
Theorem recording_url_is_not_read missing request1 request2 b1 b2 :
  request_form request1 !! "CallSid" = request_form request2 !! "CallSid" →
  request_form request1 !! "RecordingSid" = request_form request2 !! "RecordingSid" →
  (handle_recording missing request1 b1).1 = (handle_recording missing request2 b2).1 ∧
  webhook_event missing Recording request1 = webhook_event missing Recording request2.
Proof.
  intros Hc Hr.
  assert (Hsid : form_get (request_form request1) "CallSid" "test-call-sid" =
                 form_get (request_form request2) "CallSid" "test-call-sid")
    by (unfold form_get; by rewrite Hc).
  assert (Hrec : form_get (request_form request1) "RecordingSid" "test-recording-sid" =
                 form_get (request_form request2) "RecordingSid" "test-recording-sid")
    by (unfold form_get; by rewrite Hr).
  pose proof (recording_transcript_ignores_url missing
                (form_get (request_form request1) "RecordingUrl"
                   "https://example.com/recording.mp3")
                (form_get (request_form request2) "RecordingUrl"
                   "https://example.com/recording.mp3")) as Hurl.
  split.
  - unfold handle_recording, handle_recording_on. cbn [fst]. by rewrite Hsid, Hrec, Hurl.
  - unfold webhook_event. by rewrite Hsid, Hurl.
Qed.

Lemma recording_url_is_not_read_witness :
  let request1 :=
    mkRequest (Some {[ "CallSid" := "c1"; "RecordingUrl" := "https://a/1.mp3" ]}) in
  let request2 :=
    mkRequest (Some {[ "CallSid" := "c1"; "RecordingUrl" := "https://b/2.mp3" ]}) in
  (handle_recording [] request1 broadcast0).1 = (handle_recording [] request2 broadcast0).1.
Proof.
  intros request1 request2.
  apply (recording_url_is_not_read [] request1 request2 broadcast0 broadcast0);
    reflexivity.
Defined.

(** ** The published texts *)

Lemma printable_app a b : printable (a +:+ b) = printable a && printable b.
Proof. induction a as [| c a IH]; simpl; [done |]. by rewrite IH, andb_assoc. Qed.

Lemma printable_escape_char c : printable (escape_char c) = true.
Proof. destruct c as [[] [] [] [] [] [] [] []]; vm_compute; reflexivity. Qed.

Lemma printable_escape_string s : printable (escape_string s) = true.
Proof.
  induction s as [| c s IH]; simpl; [done |].
  by rewrite printable_app, printable_escape_char, IH.
Qed.

Lemma printable_encode s : printable (encode_basestring_ascii s) = true.
Proof.
  unfold encode_basestring_ascii. by rewrite !printable_app, printable_escape_string.
Qed.

Lemma printable_join parts :
  forallb printable parts = true → printable (join_comma parts) = true.
Proof.
  destruct parts as [| p parts]; [done |]. simpl.
  intros [Hp Hparts]%andb_true_iff. revert p Hp.
  induction parts as [| q parts IH]; intros p Hp; simpl in *; [done |].
  apply andb_true_iff in Hparts as [Hq Hparts]. apply IH; [done |].
  by rewrite !printable_app, Hp, Hq.
Qed.

Lemma json_dumps_printable j :
  nums_printable j = true → printable (json_dumps j) = true.
Proof.
  revert j. fix IH 1. intros [| s | repr | items | items]; simpl; try done.
  - intros _. apply printable_encode.
  - intros Hitems. rewrite !printable_app. simpl. rewrite andb_true_r.
    apply printable_join.
    induction items as [| x items IHitems]; simpl in *; [done |].
    apply andb_true_iff in Hitems as [Hx Hitems].
    by rewrite (IH x Hx), IHitems.
  - intros Hitems. rewrite !printable_app. simpl. rewrite andb_true_r.
    apply printable_join.
    induction items as [| [k v] items IHitems]; cbn [map forallb fst snd] in *;
      [done |].
    apply andb_true_iff in Hitems as [Hv Hitems].
    by rewrite !printable_app, printable_encode, (IH v Hv), IHitems.
Qed.

(** X12: every text a webhook handler publishes consists of printable
    ASCII characters only, whatever characters the form fields of the
    request contain: [json.dumps] escapes everything else.  A queue of
    printable texts stays one when a handler publishes. *)
Theorem published_texts_are_printable_ascii missing w request :
  printable (event_text (webhook_event missing w request)) = true ∧
  ∀ b q items,
    queues (broadcaster b) !! q = Some items →
    q ∈ subscribers (broadcaster b) →
    forallb printable items = true →
    ∃ items',
      queues (broadcaster (handler missing w request b).2) !! q = Some items' ∧
      forallb printable items' = true.
Proof.
  assert (Hp : printable (event_text (webhook_event missing w request)) = true).
  { apply json_dumps_printable.
    destruct w; simpl; [done | |]; case_services; reflexivity. }
  split; [exact Hp |]. intros b q items Hq Hin Hitems.
  rewrite (handler_publishes missing w request b). cbn [broadcaster].
  rewrite publish_queue, decide_True, Hq by done.
  eexists. split; [reflexivity |].
  rewrite forallb_app, Hitems.
  cbn [forallb message_text andb]. unfold event_text in Hp. by rewrite Hp.
Qed.

Lemma published_texts_are_printable_ascii_witness :
  let request :=
    mkRequest (Some {[ "CallSid" := String (ascii_of_N 10) (String (ascii_of_N 233) "x") ]}) in
  let b := set_broadcaster (anext (subscribe "calls") MockBroadcaster_init).1.2
             broadcast0 in
  queues (broadcaster b) !! 0 = Some [] ∧
  printable (event_text (webhook_event [] Call request)) = true.
Proof.
  intros request b. split; [by vm_compute |].
  apply (published_texts_are_printable_ascii [] Call request).
Defined.

(** ** The extraction of emergency details *)

Example extract_fire :
  extract_emergency_details
    "There is SMOKE and a big Fire at 12 Main Street, second floor. Come immediately!" =
  [("category", JStr "fire"); ("severity", JStr "high");
   ("location", JStr "12 main street");
   ("action", JStr "Dispatch fire brigade with full equipment immediately")].
Proof. vm_compute. reflexivity. Qed.

Example extract_nothing :
  extract_emergency_details "Hello?" =
  [("category", JStr "unknown"); ("severity", JStr "medium");
   ("location", JStr "unknown"); ("action", JStr "Dispatch assessment team")].
Proof. vm_compute. reflexivity. Qed.

Example split_examples :
  split_sep " at " "a at at b" = ["a"; "at b"] ∧
  split_sep " at " "x at " = ["x"; ""] ∧
  split_sep "XX" "aXXXb" = ["a"; "Xb"] ∧
  split_sep "." "" = [""] ∧
  strip "  x y  " = "x y" ∧ word_count " a   b " = 2.
Proof. vm_compute. repeat split. Qed.

Section Category.

Variable transcript : string.

Lemma best_of_fold items seen best :
  best_of transcript seen best →
  best_of transcript (seen ++ items)
    (foldl (fun best item =>
              let matches := count_matches item.2 transcript in
              if (best.2 <? matches)%nat then (item.1, matches) else best)
       best items).
Proof.
  revert seen best. induction items as [| [name keywords] items IH];
    intros seen best Hbest; simpl.
  - by rewrite app_nil_r.
  - rewrite (assoc_L _ seen [_] items : (seen ++ (name, keywords) :: items = (seen ++ [(name, keywords)]) ++ items)%list).
    apply IH.
    destruct (best.2 <? count_matches keywords transcript)%nat eqn:Hlt.
    + apply Nat.ltb_lt in Hlt.
      apply (best_some _ _ _ seen keywords []); simpl; [done | done | lia | | done].
      destruct Hbest as [-> Hzero | before kws after -> Hm Hpos Hb Ha].
      * eapply Forall_impl; [exact Hzero |]. simpl. intros item Hi. lia.
      * apply Forall_app. split; [| apply Forall_cons; split].
        -- eapply Forall_impl; [exact Hb |]. simpl. intros item Hi. lia.
        -- simpl. lia.
        -- eapply Forall_impl; [exact Ha |]. simpl. intros item Hi. lia.
    + apply Nat.ltb_ge in Hlt.
      destruct Hbest as [-> Hzero | before kws after -> Hm Hpos Hb Ha].
      * apply best_none; [done |]. apply Forall_app. split; [done |].
        apply Forall_cons. split; [simpl in *; lia | done].
      * apply (best_some _ _ _ before kws (after ++ [(name, keywords)]));
          [by rewrite <- app_assoc | done | done | done |].
        apply Forall_app. split; [done |]. apply Forall_cons. split; [done | done].
Qed.

Lemma determine_category_best :
  ∃ matches, best_of transcript categories (determine_category transcript, matches).
Proof.
  unfold determine_category.
  pose proof (best_of_fold categories [] ("unknown", 0%nat)) as H. simpl app in H.
  destruct (foldl _ _ categories) as [name matches]. exists matches.
  apply H. by apply best_none.
Qed.

End Category.

Lemma category_names item :
  item ∈ categories → item.1 ∈ ["medical"; "fire"; "police"; "traffic"].
Proof.
  unfold categories. rewrite !elem_of_cons, !elem_of_nil.
  intros [-> | [-> | [-> | [-> | []]]]]; simpl; set_solver.
Qed.

(** X13: for every transcript the category found is the first, in the
    order of declaration, among the categories with the most keyword
    matches, provided some keyword matches at all: every category before it
    has strictly fewer matches and every category after it has at most as
    many; the category is [unknown] exactly when no keyword of any category
    occurs. *)
Theorem category_is_first_with_most_matches transcript :
  let category := determine_category transcript in
  (category = "unknown" ↔
   Forall (fun item => count_matches item.2 transcript = 0) categories) ∧
  (category ≠ "unknown" →
   ∃ before keywords after,
     categories = (before ++ (category, keywords) :: after)%list ∧
     (0 < count_matches keywords transcript)%nat ∧
     Forall (fun item => (count_matches item.2 transcript
                          < count_matches keywords transcript)%nat) before ∧
     Forall (fun item => (count_matches item.2 transcript
                          ≤ count_matches keywords transcript)%nat) after).
Proof.
  intros category. subst category.
  destruct (determine_category_best transcript) as [matches Hbest].
  destruct Hbest as [Heq Hzero | before keywords after Hcat Hm Hpos Hb Ha];
    simpl in *.
  - injection Heq as Hname _. split; [done |]. by rewrite Hname.
  - subst matches.
    assert (Hin : (determine_category transcript, keywords) ∈ categories).
    { rewrite Hcat. apply elem_of_app. right. apply elem_of_cons. by left. }
    split.
    + split.
      * intros Hu. apply category_names in Hin. simpl in Hin. rewrite Hu in Hin.
        rewrite !elem_of_cons, elem_of_nil in Hin. intuition discriminate.
      * intros Hzero. rewrite Forall_forall in Hzero.
        specialize (Hzero _ Hin). simpl in Hzero. lia.
    + intros _. by exists before, keywords, after.
Qed.

Lemma determine_category_names transcript :
  determine_category transcript ∈ ["medical"; "fire"; "police"; "traffic"; "unknown"].
Proof.
  destruct (determine_category_best transcript) as [matches Hbest].
  destruct Hbest as [Heq Hzero | before keywords after Hcat _ _ _ _]; simpl in *.
  - injection Heq as -> _. set_solver.
  - assert (Hin : (determine_category transcript, keywords) ∈ categories).
    { rewrite Hcat. apply elem_of_app. right. apply elem_of_cons. by left. }
    apply category_names in Hin. simpl in Hin. set_solver.
Qed.

Lemma determine_severity_names transcript :
  determine_severity transcript ∈ ["high"; "medium"; "low"].
Proof.
  unfold determine_severity, severity_keywords, first_level.
  repeat (destruct (existsb _ _); [set_solver |]). set_solver.
Qed.

(** X14: for every transcript the category is one of the five names of
    the action table and the severity one of its three levels, so the
    recommended action is the entry of the table for that category and that
    severity: the fall-backs of the two [get] calls are never used. *)
Theorem action_comes_from_the_table transcript :
  let category := determine_category transcript in
  let severity := determine_severity transcript in
  category ∈ ["medical"; "fire"; "police"; "traffic"; "unknown"] ∧
  severity ∈ ["high"; "medium"; "low"] ∧
  (∃ row, (category, row) ∈ actions ∧
          (severity, recommended_action category severity) ∈ row) ∧
  dict_get "action" (extract_emergency_details transcript) =
  Some (JStr (recommended_action category severity)).
Proof.
  intros category severity.
  pose proof (determine_category_names transcript) as Hc.
  pose proof (determine_severity_names transcript) as Hs.
  fold category in Hc. fold severity in Hs.
  split; [exact Hc |]. split; [exact Hs |]. split; [| reflexivity].
  clearbody category severity.
  apply list_elem_of_In in Hc, Hs. simpl in Hc, Hs.
  destruct Hc as [<- | [<- | [<- | [<- | [<- | []]]]]],
    Hs as [<- | [<- | [<- | []]]];
    match goal with
    | |- ∃ row, (?c, row) ∈ actions ∧ _ => exists (get_or c actions [])
    end;
    split; apply list_elem_of_In; vm_compute;
    repeat (first [left; reflexivity | right]).
Qed.

Lemma starts_with_app_contains a b s :
  starts_with (a +:+ b) s = true → contains b s = true.
Proof.
  revert s. induction a as [| c a IH]; intros s; simpl.
  - change ("" +:+ b) with b. intros H.
    destruct s; cbn [contains]; [done |]. by rewrite H.
  - change (String c a +:+ b) with (String c (a +:+ b)).
    destruct s as [| x s]; [done |]. cbn [starts_with].
    intros [_ H]%andb_true_iff.
    cbn [contains]. rewrite (IH s H). apply orb_true_r.
Qed.

(** A text that contains [a] followed by [b] contains [b]. *)
Lemma contains_app_r a b s : contains (a +:+ b) s = true → contains b s = true.
Proof.
  induction s as [| x s IH].
  - intros H. by apply (starts_with_app_contains a b "").
  - cbn [contains]. intros [H | H]%orb_true_iff.
    + by apply (starts_with_app_contains a b (String x s)).
    + rewrite (IH H). apply orb_true_r.
Qed.

(** X15: the severity levels are tried in the order high, medium, low and
    the first level with a keyword in the transcript wins: the severity is
    [high] exactly when a high keyword occurs, and [low] exactly when no
    high and no medium keyword occurs and one of [minor], [small],
    [little] does.  The low keyword [not serious] never decides: a
    transcript that contains it contains the medium keyword [serious]. *)
Theorem severity_is_first_level_mentioned transcript :
  let severity := determine_severity transcript in
  let high := ["emergency"; "critical"; "severe"; "dying"; "death"; "urgent";
               "immediately"] in
  let medium := ["serious"; "bad"; "significant"; "concerning"] in
  (severity = "high" ↔ mentions high transcript = true) ∧
  (severity = "low" ↔
   mentions high transcript = false ∧ mentions medium transcript = false ∧
   mentions ["minor"; "small"; "little"] transcript = true) ∧
  (mentions ["not serious"] transcript = true → severity ≠ "low") ∧
  (mentions high transcript = false → mentions ["minor"; "small"; "little"] transcript = false →
   severity = "medium").
Proof.
  intros severity high medium. subst severity high medium.
  assert (Hshadow : contains (lower "not serious") (lower transcript) = true →
                    contains (lower "serious") (lower transcript) = true).
  { apply (contains_app_r "not " "serious"). }
  unfold determine_severity, severity_keywords, first_level, mentions.
  destruct (existsb _ ["emergency"; _; _; _; _; _; _]) eqn:Hhigh.
  { repeat split; try done; intros; try discriminate; naive_solver. }
  destruct (existsb _ ["serious"; _; _; _]) eqn:Hmed.
  { repeat split; try done; intros; try discriminate; naive_solver. }
  assert (Hns : contains (lower "not serious") (lower transcript) = false).
  { destruct (contains (lower "not serious") (lower transcript)) eqn:Hc; [| done].
    specialize (Hshadow eq_refl). cbn [existsb] in Hmed. rewrite Hshadow in Hmed.
    done. }
  cbn [existsb] in *. rewrite Hns, !orb_false_r.
  destruct (contains (lower "minor") (lower transcript)
            || (contains (lower "small") (lower transcript)
                || contains (lower "little") (lower transcript))) eqn:Hlow;
    repeat split; try done; intros; try discriminate; naive_solver.
Qed.

(** *** The location *)

Lemma all_chars_app P a b : all_chars P (a +:+ b) = all_chars P a && all_chars P b.
Proof.
  induction a as [| c a IH]; [done |].
  change (String c a +:+ b) with (String c (a +:+ b)). cbn [all_chars].
  by rewrite IH, andb_assoc.
Qed.

(** The parts of a split are made of characters of the text. *)
Lemma split_go_all_chars P sep skip current s :
  all_chars P current = true → all_chars P s = true →
  Forall (fun part => all_chars P part = true) (split_go sep skip current s).
Proof.
  revert skip current. induction s as [| c s IH]; intros skip current Hcur Hs.
  - by apply Forall_cons.
  - cbn [all_chars] in Hs. apply andb_true_iff in Hs as [Hc Hs].
    cbn [split_go]. destruct skip as [| skip]; [| by apply IH].
    destruct (starts_with sep (String c s)).
    + apply Forall_cons. split; [done |]. by apply IH.
    + apply IH; [| done]. rewrite all_chars_app, Hcur. cbn [all_chars].
      by rewrite Hc.
Qed.

(** The first part of a split at one character does not have that
    character. *)
Lemma first_part_lacks c current s :
  all_chars (is_not c) current = true →
  all_chars (is_not c) (hd EmptyString (split_go (String c EmptyString) 0 current s))
  = true.
Proof.
  revert current. induction s as [| x s IH]; intros current Hcur; [done |].
  cbn [split_go starts_with].
  destruct (bool_decide (c = x)) eqn:Hcx; cbn [andb].
  - done.
  - apply IH. rewrite all_chars_app, Hcur. cbn [all_chars]. unfold is_not.
    apply bool_decide_eq_false in Hcx.
    rewrite bool_decide_eq_false_2 by congruence. done.
Qed.

Lemma hd_Forall {A} (Q : A → Prop) d l : Q d → Forall Q l → Q (hd d l).
Proof. intros Hd Hl. destruct Hl; simpl; done. Qed.

Lemma nth_Forall {A} (Q : A → Prop) n d l : Q d → Forall Q l → Q (nth n l d).
Proof.
  intros Hd Hl. revert n. induction Hl as [| x l Hx Hl IH]; intros [| n]; simpl; auto.
Qed.

Lemma lstrip_all_chars P s : all_chars P s = true → all_chars P (lstrip s) = true.
Proof.
  induction s as [| c s IH]; [done |]. cbn [lstrip].
  destruct (is_space c); [| done]. cbn [all_chars].
  intros [_ Hs]%andb_true_iff. by apply IH.
Qed.

Lemma rstrip_all_chars P s : all_chars P s = true → all_chars P (rstrip s) = true.
Proof.
  induction s as [| c s IH]; [done |]. cbn [rstrip all_chars].
  intros [Hc Hs]%andb_true_iff.
  destruct (is_space c && is_empty (rstrip s)); [done |].
  cbn [all_chars]. by rewrite Hc, IH.
Qed.

Lemma strip_all_chars P s : all_chars P s = true → all_chars P (strip s) = true.
Proof. intros H. by apply rstrip_all_chars, lstrip_all_chars. Qed.

Lemma lstrip_starts_clean s : starts_clean (lstrip s) = true.
Proof.
  induction s as [| c s IH]; [done |]. cbn [lstrip].
  destruct (is_space c) eqn:Hc; [done |]. cbn [starts_clean]. by rewrite Hc.
Qed.

Lemma starts_clean_lstrip s : starts_clean s = true → lstrip s = s.
Proof.
  destruct s as [| c s]; [done |]. cbn [starts_clean lstrip].
  by intros ->%negb_true_iff.
Qed.

Lemma rstrip_starts_clean s : starts_clean s = true → starts_clean (rstrip s) = true.
Proof.
  destruct s as [| c s]; [done |]. cbn [starts_clean rstrip].
  intros Hc. apply negb_true_iff in Hc. rewrite Hc. cbn [andb starts_clean].
  by rewrite Hc.
Qed.

Lemma rstrip_rstrip s : rstrip (rstrip s) = rstrip s.
Proof.
  induction s as [| c s IH]; [done |]. cbn [rstrip].
  destruct (is_space c && is_empty (rstrip s)) eqn:Hd; [done |].
  cbn [rstrip]. by rewrite IH, Hd.
Qed.

(** A stripped text has no white space left to strip. *)
Lemma strip_strip s : strip (strip s) = strip s.
Proof.
  unfold strip.
  rewrite (starts_clean_lstrip (rstrip (lstrip s)))
    by apply rstrip_starts_clean, lstrip_starts_clean.
  apply rstrip_rstrip.
Qed.

Lemma is_lower_lower_char c : is_lower (lower_char c) = true.
Proof. destruct c as [[] [] [] [] [] [] [] []]; vm_compute; reflexivity. Qed.

Lemma lower_all_lower s : all_chars is_lower (lower s) = true.
Proof.
  induction s as [| c s IH]; [done |]. cbn [lower all_chars].
  by rewrite is_lower_lower_char, IH.
Qed.

(** What a location that was found looks like. *)
Lemma find_location_shape markers transcript :
  let location := find_location markers transcript "unknown" in
  location = "unknown" ∨
  ((3 < String.length location)%nat ∧ (word_count location ≤ 5)%nat ∧
   all_chars (is_not "."%char) location = true ∧
   all_chars (is_not ","%char) location = true ∧
   all_chars is_lower location = true ∧
   strip location = location).
Proof.
  induction markers as [| marker markers IH]; [by left |].
  cbn [find_location].
  destruct (contains _ (lower transcript)); [| exact IH].
  destruct (1 <? length _)%nat; [| exact IH].
  set (part := nth 1 (split_sep (" " +:+ marker +:+ " ") (lower transcript)) "").
  set (sentence := hd "" (split_sep "." part)).
  set (clause := hd "" (split_sep "," sentence)).
  destruct ((3 <? String.length (strip clause))%nat
            && (word_count (strip clause) <=? 5)%nat) eqn:Hok; [| exact IH].
  right. apply andb_true_iff in Hok as [Hlen Hwords].
  apply Nat.ltb_lt in Hlen. apply Nat.leb_le in Hwords.
  assert (Hpart : all_chars is_lower part = true).
  { apply (nth_Forall (fun p => all_chars is_lower p = true)); [done |].
    apply split_go_all_chars; [done | apply lower_all_lower]. }
  assert (Hsentence : all_chars is_lower sentence = true).
  { apply (hd_Forall (fun p => all_chars is_lower p = true)); [done |].
    by apply split_go_all_chars. }
  assert (Hdot : all_chars (is_not "."%char) sentence = true)
    by by apply first_part_lacks.
  split; [exact Hlen |]. split; [exact Hwords |]. split; [| split; [| split]].
  - apply strip_all_chars.
    apply (hd_Forall (fun p => all_chars (is_not "."%char) p = true)); [done |].
    by apply split_go_all_chars.
  - apply strip_all_chars. by apply first_part_lacks.
  - apply strip_all_chars.
    apply (hd_Forall (fun p => all_chars is_lower p = true)); [done |].
    by apply split_go_all_chars.
  - apply strip_strip.
Qed.

(** X16: the location is [unknown] or a phrase that [lower] leaves as it
    is: more than three characters and at most five words long, without a
    full stop or a comma, and without white space at either end. *)
Theorem location_is_a_short_trimmed_phrase transcript :
  let location := extract_location transcript in
  dict_get "location" (extract_emergency_details transcript) = Some (JStr location) ∧
  (location = "unknown" ∨
   ((3 < String.length location)%nat ∧ (word_count location ≤ 5)%nat ∧
    all_chars (is_not "."%char) location = true ∧
    all_chars (is_not ","%char) location = true ∧
    all_chars is_lower location = true ∧
    strip location = location)).
Proof.
  intros location. split; [reflexivity |].
  apply find_location_shape.
Qed.

Lemma category_is_first_with_most_matches_witness :
  let transcript := "Smoke and FIRE in the kitchen, my car is burning too" in
  determine_category transcript = "fire" ∧
  ∃ before keywords after,
    categories = (before ++ (determine_category transcript, keywords) :: after)%list ∧
    (0 < count_matches keywords transcript)%nat ∧
    Forall (fun item => (count_matches item.2 transcript
                         < count_matches keywords transcript)%nat) before ∧
    Forall (fun item => (count_matches item.2 transcript
                         ≤ count_matches keywords transcript)%nat) after.
Proof.
  intros transcript. split; [vm_compute; reflexivity |].
  apply (category_is_first_with_most_matches transcript).
  vm_compute. discriminate.
Defined.
